(** * TimeSeriesAnalyzer: a shallow embedding of [analyzer_modules.py]

    The analyzer keeps one series of observations ([data]) and the moving
    average that its constructor computed from it ([moving_avg_data]); its
    methods are queries over the two.  Values are pandas [float64] cells;
    they are rendered here as [option Q]: [None] is NaN (a missing cell) and
    [Some q] a number.  The methods compute with exact rational arithmetic;
    [Float64] gives the rounding of binary64 and [Aggregations] the running
    mean of pandas in it, and the statements about computed numbers say
    where the exact and the rounded computation return the same number.
    A [Series] carries its index explicitly, one label per row. *)

From Stdlib Require Import ZArith QArith Qminmax Qpower Qround Qabs.
From Stdlib Require Import List String Lia Sorted Lqa.
From stdpp Require Import base option list gmap strings.

Local Open Scope Z_scope.

(** ** Python values, exceptions and results *)

(** The values a caller can pass for [window_size] or [lags]. *)
Inductive pyval : Type :=
| PyNone
| PyBool (b : bool)
| PyInt (z : Z)
| PyFloat (q : Q)
| PyStr (s : string).

(** [ValueError] as raised by the decorator (the argument it names), the
    [ValueError] of pandas and Python's [TypeError]. *)
Inductive exn : Type :=
| InvalidArgument (param : string)
| PandasValueError (msg : string)
| TypeError (msg : string).

Inductive result (A : Type) : Type :=
| Ok (a : A)
| Raise (e : exn).
Arguments Ok {A} a.
Arguments Raise {A} e.

(** ** Cells and series *)

Definition label := Z.
Definition cell := option Q.
Definition nan : cell := None.

Abbreviation Series := (list (label * cell)).

Definition index (s : Series) : list label := s.*1.
Definition values (s : Series) : list cell := s.*2.
Definition len (s : Series) : Z := Z.of_nat (length s).

Definition isnull (c : cell) : bool :=
  match c with None => true | Some _ => false end.
Definition notnull (c : cell) : bool := negb (isnull c).

(** Comparisons and arithmetic of cells: NaN compares false with everything
    and propagates through arithmetic. *)
Definition Qlt_bool (x y : Q) : bool :=
  (Qnum x * QDen y <? Qnum y * QDen x)%Z.

Definition cell_lt (a b : cell) : bool :=
  match a, b with
  | Some x, Some y => Qlt_bool x y
  | _, _ => false
  end.
Definition cell_gt (a b : cell) : bool := cell_lt b a.

Definition cell_sub (a b : cell) : cell :=
  match a, b with
  | Some x, Some y => Some (x - y)%Q
  | _, _ => None
  end.

(** [x / y] of numpy: [0 / 0] is NaN. *)
Definition cell_div (a b : cell) : cell :=
  match a, b with
  | Some x, Some y => if Qeq_bool y 0 then None else Some (x / y)%Q
  | _, _ => None
  end.

Definition Qsum (l : list Q) : Q := fold_right Qplus 0%Q l.

(** ** Python sequences *)

Module Py.

(** [l[:k]] for any integer [k]: a negative [k] counts from the end. *)
Definition slice_to {A} (k : Z) (l : list A) : list A :=
  if k <? 0 then take (Z.to_nat (Z.of_nat (length l) + k)) l
  else take (Z.to_nat k) l.

(** [l[1:]]. *)
Definition slice_from1 {A} (l : list A) : list A := drop 1 l.

(** [[x] * k]: empty for [k <= 0]. *)
Definition times {A} (x : A) (k : Z) : list A := replicate (Z.to_nat k) x.

(** [range(1, n + 1)], what [generate_lags] yields. *)
Definition range1 (n : Z) : list Z :=
  (fun i => Z.of_nat i + 1) <$> seq 0 (Z.to_nat n).

End Py.

(** ** The pandas operations the analyzer calls *)

Module Pandas.

(** [pd.Series(dtype=float)]. *)
Definition empty : Series := [].

(** [pd.Series(vals, index=idx)]: the lengths must agree. *)
Definition mk (vals : list cell) (idx : list label) : result Series :=
  if (length vals =? length idx)%nat then Ok (zip idx vals)
  else Raise (PandasValueError "Length of values does not match length of index").

(** [s.index = idx]. *)
Definition set_index (s : Series) (idx : list label) : result Series :=
  if (length s =? length idx)%nat then Ok (zip idx (values s))
  else Raise (PandasValueError "Length mismatch").

Definition concat (a b : Series) : Series := a ++ b.

Definition dropna (s : Series) : Series :=
  List.filter (fun r => notnull r.2) s.

(** [s.isnull().all()]; true of the empty series. *)
Definition isnull_all (s : Series) : bool := forallb isnull (values s).

(** [s.shift(periods)]: the values move, the index stays. *)
Definition shift_values (periods : Z) (vals : list cell) : list cell :=
  let n := length vals in
  if periods <? 0
  then drop (Z.to_nat (- periods)) vals
         ++ replicate (Nat.min (Z.to_nat (- periods)) n) nan
  else take n (replicate (Z.to_nat periods) nan ++ vals).

Definition shift (periods : Z) (s : Series) : Series :=
  zip (index s) (shift_values periods (values s)).

(** [a < b] and [a > b] on two series over one index, and [m1 & m2]. *)
Definition lt (a b : Series) : list bool :=
  zip_with cell_lt (values a) (values b).
Definition gt (a b : Series) : list bool :=
  zip_with cell_gt (values a) (values b).
Definition mask_and (m1 m2 : list bool) : list bool :=
  zip_with andb m1 m2.

(** [s[mask]]: the rows whose mask entry is true. *)
Definition getitem_mask (s : Series) (mask : list bool) : Series :=
  (List.filter snd (zip s mask)).*1.

(** [s.diff()], that is [s - s.shift(1)]. *)
Definition diff (s : Series) : Series :=
  zip (index s) (zip_with cell_sub (values s) (shift_values 1 (values s))).

(** The window of a fixed-size rolling at position [i]: rows
    [max(0, i + 1 - w) .. i]. *)
Definition window_cells (w i : nat) (vals : list cell) : list cell :=
  take (S i - (S i - w)) (drop (S i - w) vals).

(** The mean of the observations of one window: NaN unless there are at
    least [minp] of them (and at least one). *)
Definition roll_mean (minp : nat) (win : list cell) : cell :=
  let obs := omap id win in
  let nobs := length obs in
  if ((minp <=? nobs) && (0 <? nobs))%nat
  then Some (Qsum obs / inject_Z (Z.of_nat nobs))%Q
  else None.

(** [s.rolling(window=w).mean()] for an integer [w]; [min_periods] is the
    window size. *)
Definition rolling_mean (w : Z) (s : Series) : result Series :=
  if w <? 0 then Raise (PandasValueError "window must be an integer 0 or greater")
  else
    let n := Z.to_nat w in
    Ok (imap (fun i r => (r.1, roll_mean n (window_cells n i (values s)))) s).

End Pandas.

(** ** [statsmodels.tsa.stattools.acf]

    [acovf] with [demean=True] and [adjusted=False]: the autocovariance at
    every lag [0 .. n-1], each sum divided by [n].  [acf] keeps
    [avf[:nlags + 1]] and divides by [avf[0]]. *)

Module Stattools.

Definition acovf (x : list Q) : list Q :=
  let n := inject_Z (Z.of_nat (length x)) in
  let mean := (Qsum x / n)%Q in
  let xo := (fun v => (v - mean)%Q) <$> x in
  (fun k => (Qsum (zip_with Qmult xo (drop k xo)) / n)%Q) <$> seq 0 (length x).

Definition acf (x : list Q) (nlags : Z) : list cell :=
  let avf := acovf x in
  (fun a => cell_div (Some a) (head avf)) <$> Py.slice_to (nlags + 1) avf.

End Stattools.

(** ** Data frames built from a dict of series *)

Module Frame.

Record DataFrame : Type := {
  df_index : list label;
  df_columns : list (string * list cell)
}.

Fixpoint insert_sorted (x : label) (l : list label) : list label :=
  match l with
  | [] => [x]
  | y :: l' =>
      if x <? y then x :: l
      else if x =? y then l
      else y :: insert_sorted x l'
  end.

Definition sort_unique (l : list label) : list label :=
  fold_right insert_sorted [] l.

(** The index of the frame: the common index when all columns have the
    same one, their sorted union otherwise. *)
Definition union_indexes (idxs : list (list label)) : list label :=
  match idxs with
  | [] => []
  | i0 :: rest =>
      if forallb (fun i => bool_decide (i = i0)) rest then i0
      else sort_unique (List.concat idxs)
  end.

Definition loc (s : Series) (l : label) : cell :=
  match List.find (fun r => r.1 =? l) s with
  | Some r => r.2
  | None => nan
  end.

(** [s.reindex(idx)]: a label absent from [s] gets NaN; a series with
    duplicate labels cannot be moved to another index. *)
Definition reindex (s : Series) (idx : list label) : result Series :=
  if bool_decide (index s = idx) then Ok s
  else if bool_decide (NoDup (index s)) then Ok ((fun l => (l, loc s l)) <$> idx)
  else Raise (PandasValueError "cannot reindex on an axis with duplicate labels").

Fixpoint homogenize (cols : list (string * Series)) (idx : list label)
  : result (list (string * list cell)) :=
  match cols with
  | [] => Ok []
  | (name, s) :: cols' =>
      match reindex s idx with
      | Raise e => Raise e
      | Ok s' =>
          match homogenize cols' idx with
          | Raise e => Raise e
          | Ok rest => Ok ((name, values s') :: rest)
          end
      end
  end.

(** [pd.DataFrame({name: series, ...})]. *)
Definition from_dict (cols : list (string * Series)) : result DataFrame :=
  let idx := union_indexes ((fun c => index c.2) <$> cols) in
  match homogenize cols idx with
  | Raise e => Raise e
  | Ok cs => Ok {| df_index := idx; df_columns := cs |}
  end.

Definition column (name : string) (df : DataFrame) : option (list cell) :=
  snd <$> List.find (fun c => String.eqb c.1 name) (df_columns df).

End Frame.

(** ** The analyzer object and its methods

    A method is a computation over the analyzer it is called on: it returns
    a value or raises, and hands back the object as it left it. *)

Record TimeSeriesAnalyzer : Type := {
  keyword : string;
  timeframe : string;
  data : Series;
  moving_avg_data : Series
}.

Definition M (A : Type) : Type :=
  TimeSeriesAnalyzer -> result A * TimeSeriesAnalyzer.

Definition ret {A} (a : A) : M A := fun self => (Ok a, self).
Definition raise {A} (e : exn) : M A := fun self => (Raise e, self).
Definition bind {A B} (m : M A) (k : A -> M B) : M B :=
  fun self =>
    match m self with
    | (Ok a, self') => k a self'
    | (Raise e, self') => (Raise e, self')
    end.
Definition lift {A} (r : result A) : M A := fun self => (r, self).
Definition read {A} (attr : TimeSeriesAnalyzer -> A) : M A :=
  fun self => (Ok (attr self), self).
Definition set_moving_avg_data (s : Series) : M unit :=
  fun self =>
    (Ok tt, {| keyword := keyword self; timeframe := timeframe self;
               data := data self; moving_avg_data := s |}).

#[global] Instance M_ret : MRet M := @ret.
#[global] Instance M_bind : MBind M := fun A B k m => bind m k.

Definition method (A : Type) : Type := list pyval -> gmap string pyval -> M A.

(** [isinstance(v, int)]: [bool] is a subclass of [int]. *)
Definition isinstance_int (v : pyval) : bool :=
  match v with PyInt _ | PyBool _ => true | _ => false end.

(** [v <= 0] for a [v] that is an [int]. *)
Definition int_le0 (v : pyval) : bool :=
  match v with
  | PyInt z => z <=? 0
  | PyBool b => Z.b2z b <=? 0
  | _ => false
  end.

Definition validate_args {A} (name : string) (func : method A) : method A :=
  fun args kwargs =>
    if String.eqb name "calculate_moving_average" then
      let window_size := default (PyInt 7) (kwargs !! "window_size") in
      if negb (isinstance_int window_size) || int_le0 window_size
      then raise (InvalidArgument "window_size")
      else func args kwargs
    else if String.eqb name "calculate_auto_correlation" then
      let lags := default (PyInt 40) (kwargs !! "lags") in
      if negb (isinstance_int lags) || int_le0 lags
      then raise (InvalidArgument "lags")
      else func args kwargs
    else func args kwargs.

Definition generate_lags (n : Z) : list Z := Py.range1 n.

(** How Python binds the call's arguments to the one parameter
    [window_size = 7] (after [self]). *)
Definition bind_window_size (args : list pyval) (kwargs : gmap string pyval)
  : result pyval :=
  match args with
  | [] =>
      if bool_decide (delete "window_size" kwargs = ∅)
      then Ok (default (PyInt 7) (kwargs !! "window_size"))
      else Raise (TypeError "unexpected keyword argument")
  | [v] =>
      if bool_decide (kwargs = ∅) then Ok v
      else Raise (TypeError "multiple values or unexpected keyword argument")
  | _ => Raise (TypeError "too many positional arguments")
  end.

(** Binding for a method with no parameter but [self]. *)
Definition bind_nothing (args : list pyval) (kwargs : gmap string pyval)
  : result unit :=
  match args with
  | [] =>
      if bool_decide (kwargs = ∅) then Ok tt
      else Raise (TypeError "unexpected keyword argument")
  | _ => Raise (TypeError "too many positional arguments")
  end.

(** [n < v] for an [int] [n]. *)
Definition int_lt (n : Z) (v : pyval) : result bool :=
  match v with
  | PyInt z => Ok (n <? z)
  | PyBool b => Ok (n <? Z.b2z b)
  | PyFloat q => Ok (Qlt_bool (inject_Z n) q)
  | PyNone | PyStr _ => Raise (TypeError "'<' not supported")
  end.

(** [series.rolling(window=v).mean()]: pandas wants an integer window. *)
Definition rolling_mean_py (v : pyval) (s : Series) : result Series :=
  match v with
  | PyInt z => Pandas.rolling_mean z s
  | _ => Raise (PandasValueError "window must be an integer 0 or greater")
  end.

Definition _load_data (column : Series) : Series := Pandas.dropna column.

Definition calculate_moving_average_body (window_size : pyval) : M Series :=
  d ← read data;
  short ← lift (int_lt (len d) window_size);
  if short : bool then ret Pandas.empty
  else lift (rolling_mean_py window_size d).

Definition calculate_moving_average : method Series :=
  validate_args "calculate_moving_average"
    (fun args kwargs =>
       window_size ← lift (bind_window_size args kwargs);
       calculate_moving_average_body window_size).

Definition calculate_differential : method Series :=
  validate_args "calculate_differential"
    (fun args kwargs =>
       _ ← lift (bind_nothing args kwargs);
       mad ← read moving_avg_data;
       ret (Pandas.diff mad)).

(** [calculate_auto_correlation] carries no decorator; [lags] is [None] or
    an [int]. *)
Definition calculate_auto_correlation (lags : option Z) : M Series :=
  mad ← read moving_avg_data;
  if Pandas.isnull_all mad
  then lift (Pandas.mk (Py.times nan (len mad)) (index mad))
  else
    let valid_data := Pandas.dropna mad in
    let lags := match lags with
                | None => len valid_data - 1
                | Some l => l
                end in
    if len valid_data <? 2
    then lift (Pandas.mk (Py.times nan (len mad)) (index mad))
    else
      let acf_values := Stattools.acf (omap id (values valid_data)) lags in
      let k := Z.of_nat (length (Py.slice_from1 acf_values)) in
      acf_series ← lift (Pandas.mk (Py.times nan (len mad - k))
                                   (Py.slice_to (len mad - k) (index mad)));
      tail ← lift (Pandas.mk (Py.slice_from1 acf_values)
                             (Py.slice_to k (index valid_data)));
      let acf_series := Pandas.concat acf_series tail in
      lift (Pandas.set_index acf_series (index mad)).

(** The two masks of the extrema: both neighbours strictly below, or both
    strictly above. *)
Definition maxima_mask (mad : Series) : list bool :=
  Pandas.mask_and (Pandas.lt (Pandas.shift 1 mad) mad)
                  (Pandas.lt (Pandas.shift (-1) mad) mad).

Definition minima_mask (mad : Series) : list bool :=
  Pandas.mask_and (Pandas.gt (Pandas.shift 1 mad) mad)
                  (Pandas.gt (Pandas.shift (-1) mad) mad).

Definition find_maxima : method Series :=
  validate_args "find_maxima"
    (fun args kwargs =>
       _ ← lift (bind_nothing args kwargs);
       mad ← read moving_avg_data;
       ret (Pandas.getitem_mask mad (maxima_mask mad))).

Definition find_minima : method Series :=
  validate_args "find_minima"
    (fun args kwargs =>
       _ ← lift (bind_nothing args kwargs);
       mad ← read moving_avg_data;
       ret (Pandas.getitem_mask mad (minima_mask mad))).

Definition save_to_dataframe (res : Series) (name : string)
  : M Frame.DataFrame :=
  lift (Frame.from_dict [(name, res)]).

Definition get_results : M Frame.DataFrame :=
  moving_avg ← calculate_moving_average [] ∅;
  differential ← calculate_differential [] ∅;
  auto_correlation ← calculate_auto_correlation None;
  maxima ← find_maxima [] ∅;
  minima ← find_minima [] ∅;
  lift (Frame.from_dict
          [("Moving Average", moving_avg);
           ("Differential", differential);
           ("Auto correlation", auto_correlation);
           ("Maxima", maxima);
           ("Minima", minima)]).

(** The constructor: [column] is what the trends provider returned for the
    keyword.  [moving_avg_data] is not yet assigned while the first
    [calculate_moving_average] runs; that call does not read it. *)
Definition __init__ (kw tf : string) (column : Series)
  : result TimeSeriesAnalyzer :=
  let self := {| keyword := kw; timeframe := tf;
                 data := _load_data column; moving_avg_data := [] |} in
  match (s ← calculate_moving_average [] ∅; set_moving_avg_data s) self with
  | (Ok _, self') => Ok self'
  | (Raise e, _) => Raise e
  end.

(** The analyzer of the unit tests: the series [1 .. 10] over the index
    [0 .. 9]. *)
Definition series_of_ints (l : list Z) : Series :=
  imap (fun i v => (Z.of_nat i, Some (inject_Z v))) l.

Definition test_data : Series := series_of_ints [1; 2; 3; 4; 5; 6; 7; 8; 9; 10].

(** ** Notions the statements use *)

(** A computation that hands the analyzer back as it got it. *)
Definition preserves {A} (m : M A) : Prop := ∀ self, (m self).2 = self.

(** The arguments the decorator accepts: an [int] above zero ([True] is
    the [int] 1). *)
Definition positive_int (v : pyval) : Prop :=
  match v with
  | PyInt z => 0 < z
  | PyBool b => b = true
  | _ => False
  end.

(** The numbers of a series, and series without NaN. *)
Definition observations (s : Series) : list Q := omap id (values s).

Definition no_missing (s : Series) : Prop := Forall (λ r, is_Some r.2) s.

(** The arithmetic mean and the trailing window, as the specification words
    them. *)
Definition mean (xs : list Q) : Q :=
  (Qsum xs / inject_Z (Z.of_nat (length xs)))%Q.

Definition trailing (w i : nat) (xs : list Q) : list Q :=
  take w (drop (S i - w) xs).

(** A strict local extremum at position [i], as the specification words it,
    for an order [R] on the numbers. *)
Definition strict_extremum (R : Q → Q → Prop) (vals : list cell) (i : nat) : Prop :=
  ∃ a b c : Q,
    (0 < i)%nat ∧
    vals !! (i - 1)%nat = Some (Some a) ∧
    vals !! i = Some (Some b) ∧
    vals !! (i + 1)%nat = Some (Some c) ∧
    R a b ∧ R c b.

Definition local_max := strict_extremum Qlt.
Definition local_min := strict_extremum (λ x y, (y < x)%Q).

(** The mask of the rows that compare by [cmp] with both neighbours; the
    two masks of the analyzer are instances of it. *)
Definition mask_of (cmp : cell → cell → bool) (s : Series) : list bool :=
  Pandas.mask_and
    (zip_with cmp (values (Pandas.shift 1 s)) (values s))
    (zip_with cmp (values (Pandas.shift (-1) s)) (values s)).

(** The positions at which a mask is true, in increasing order, counted
    from [k]. *)
Fixpoint true_positions (k : nat) (mask : list bool) : list nat :=
  match mask with
  | [] => []
  | b :: mask' =>
      if b then k :: true_positions (S k) mask' else true_positions (S k) mask'
  end.

(** The rows of [s] at the given positions. *)
Definition rows_at (s : Series) (ps : list nat) : Series :=
  omap (λ p, s !! p) ps.

(** The coefficients that are kept: the [acf] of the valid smoothed cells
    without its first entry (lag 0). *)
Definition kept_coefficients (mad : Series) (lags : option Z) : list cell :=
  let valid_data := Pandas.dropna mad in
  let nlags := match lags with
               | None => len valid_data - 1
               | Some l => l
               end in
  Py.slice_from1 (Stattools.acf (observations valid_data) nlags).

Definition count_missing (s : Series) : nat :=
  length (List.filter isnull (values s)).

(** The smoothed series the constructor stores: the default window is 7. *)
Definition default_moving_average (d : Series) : Series :=
  if len d <? 7 then Pandas.empty
  else imap (λ i r, (r.1, Pandas.roll_mean 7 (Pandas.window_cells 7 i (values d)))) d.

(** Analyzers to run the methods on: the one of the unit tests, one with
    three observations and one whose trend goes up and down. *)
Definition analyzer_of (d : Series) : TimeSeriesAnalyzer :=
  {| keyword := "test_keyword"; timeframe := "test_timeframe";
     data := d; moving_avg_data := default_moving_average d |}.

Definition test_analyzer : TimeSeriesAnalyzer := analyzer_of test_data.
Definition short_analyzer : TimeSeriesAnalyzer :=
  analyzer_of (series_of_ints [1; 2; 3]).
Definition wavy_analyzer : TimeSeriesAnalyzer :=
  analyzer_of (series_of_ints [1; 3; 2; 5; 1; 1; 4; 9; 0; 3; 3; 8; 1; 0; 7; 7; 2]).


(** C3 as the specification states it: the NaN padding in front is as long
    as the count of missing smoothed cells. *)
Definition padding_is_missing_count (self : TimeSeriesAnalyzer) (lags : option Z)
  : Prop :=
  let mad := moving_avg_data self in
  ∃ r, (calculate_auto_correlation lags self).1 = Ok r ∧
       index r = index mad ∧
       values r = replicate (count_missing mad) nan ++ kept_coefficients mad lags.

(** C4 as the specification states it: every derived series is indexed
    like the original one. *)
Definition derived_share_index (self : TimeSeriesAnalyzer) : Prop :=
  let d := data self in
  (∀ w r, 0 < w →
     (calculate_moving_average [] {[ "window_size" := PyInt w ]} self).1 = Ok r →
     index r = index d) ∧
  (∀ lags r, (calculate_auto_correlation lags self).1 = Ok r → index r = index d) ∧
  (∀ r, (find_maxima [] ∅ self).1 = Ok r → index r = index d) ∧
  (∀ r, (find_minima [] ∅ self).1 = Ok r → index r = index d) ∧
  (∀ df, (get_results self).1 = Ok df → Frame.df_index df = index d).

(** The values of the stored smoothed series of a long enough input. *)
Definition smoothed_values (d : Series) : list cell :=
  replicate 6 nan ++
  ((λ i, Some (mean (trailing 7 i (observations d)))) <$> seq 6 (length d - 6)).

(** ** Binary64 arithmetic

    The numbers pandas computes with are IEEE 754 binary64: a finite one is
    [m * 2 ^ e] for integers [|m| < 2 ^ 53] and [-1074 <= e <= 971].  Every
    operation returns the exact result rounded to the nearest such number,
    ties to the even significand.  A result beyond the largest binary64
    number (an overflow to infinity) has no counterpart here: cells are
    finite numbers or NaN. *)

Module Float64.

Definition pow2 (e : Z) : Q := (2 ^ e)%Q.

Definition representable (q : Q) : Prop :=
  ∃ m e : Z, Z.abs m < 2 ^ 53 ∧ -1074 ≤ e ≤ 971 ∧ (q == inject_Z m * pow2 e)%Q.

(** [floor (log2 |q|)] for [q] other than 0. *)
Definition ilog2 (q : Q) : Z :=
  let a := Z.log2 (Z.abs (Qnum q)) - Z.log2 (Zpos (Qden q)) in
  if Qle_bool (pow2 a) (Qabs q) then a else a - 1.

(** The nearest integer, the even one of two that are equally near. *)
Definition round_half_even (q : Q) : Z :=
  let f := Qfloor q in
  match (q - inject_Z f ?= 1 # 2)%Q with
  | Lt => f
  | Gt => f + 1
  | Eq => if Z.even f then f else f + 1
  end.

(** Rounding to binary64: 53 significant bits, and no bit below
    [2 ^ -1074]. *)
Definition round (q : Q) : Q :=
  if Qeq_bool q 0 then 0%Q
  else
    let e := Z.max (ilog2 q - 52) (-1074) in
    (inject_Z (round_half_even (q / pow2 e)) * pow2 e)%Q.

Definition add (x y : Q) : Q := round (x + y).
Definition sub (x y : Q) : Q := round (x - y).
Definition div (x y : Q) : Q := round (x / y).

(** An integer of absolute value at most [B]. *)
Definition small_int (B : Z) (x : Q) : Prop :=
  (x == inject_Z (Qfloor x))%Q ∧ Z.abs (Qfloor x) ≤ B.

End Float64.

(** ** The rolling mean of pandas in binary64

    [series.rolling(window).mean()] runs [roll_mean] of pandas' window
    aggregations ([pandas/_libs/window/aggregations.pyx]), given here with
    its helpers [add_mean], [remove_mean] and [calc_mean].  It goes over the
    positions once and carries, from one window to the next, the number of
    observations in the window, their running sum with one Kahan
    compensation for the additions and one for the removals, the number of
    negative observations and the length of the current run of equal
    values.  The window of position [i] holds the rows
    [max(0, i + 1 - w) .. i]. *)

Module Aggregations.

Record mean_state : Type := {
  nobs : nat;
  sum_x : Q;
  neg_ct : nat;
  compensation_add : Q;
  compensation_remove : Q;
  num_consecutive_same_value : nat;
  prev_value : cell
}.

(** [val == prev_value]: false against NaN. *)
Definition same_value (v : Q) (prev : cell) : bool :=
  match prev with
  | Some p => Qeq_bool v p
  | None => false
  end.

(** A NaN is passed over; a number enters the sum by a compensated
    addition. *)
Definition add_mean (st : mean_state) (val : cell) : mean_state :=
  match val with
  | None => st
  | Some v =>
      let y := Float64.sub v (compensation_add st) in
      let t := Float64.add (sum_x st) y in
      {| nobs := S (nobs st);
         sum_x := t;
         neg_ct := if Qlt_bool v 0 then S (neg_ct st) else neg_ct st;
         compensation_add := Float64.sub (Float64.sub t (sum_x st)) y;
         compensation_remove := compensation_remove st;
         num_consecutive_same_value :=
           if same_value v (prev_value st)
           then S (num_consecutive_same_value st) else 1%nat;
         prev_value := Some v |}
  end.

Definition remove_mean (st : mean_state) (val : cell) : mean_state :=
  match val with
  | None => st
  | Some v =>
      let y := Float64.sub (- v) (compensation_remove st) in
      let t := Float64.add (sum_x st) y in
      {| nobs := pred (nobs st);
         sum_x := t;
         neg_ct := if Qlt_bool v 0 then pred (neg_ct st) else neg_ct st;
         compensation_add := compensation_add st;
         compensation_remove := Float64.sub (Float64.sub t (sum_x st)) y;
         num_consecutive_same_value := num_consecutive_same_value st;
         prev_value := prev_value st |}
  end.

(** The mean of the window, NaN with fewer than [minp] observations: the
    sum divided by the count, but the value itself for a window of equal
    values, and 0 for a quotient whose sign no observation has. *)
Definition calc_mean (minp : nat) (st : mean_state) : cell :=
  if ((minp <=? nobs st) && (0 <? nobs st))%nat then
    let result := Float64.div (sum_x st) (inject_Z (Z.of_nat (nobs st))) in
    if (nobs st <=? num_consecutive_same_value st)%nat then prev_value st
    else if (neg_ct st =? 0)%nat && Qlt_bool result 0 then Some 0%Q
    else if (neg_ct st =? nobs st)%nat && Qlt_bool 0 result then Some 0%Q
    else Some result
  else None.

Definition setup (first : cell) : mean_state :=
  {| nobs := 0; sum_x := 0; neg_ct := 0;
     compensation_add := 0; compensation_remove := 0;
     num_consecutive_same_value := 0; prev_value := first |}.

(** The bounds of the fixed window of position [i], and the rows
    [a .. b - 1]. *)
Definition window_start (w i : nat) : nat := S i - w.
Definition window_end (i : nat) : nat := S i.

Definition rows (a b : nat) (vals : list cell) : list cell :=
  take (b - a) (drop a vals).

(** One turn of the loop: a fresh sum at position 0 and when the window
    shares no row with the one before, else the rows that left are removed
    and the rows that entered are added. *)
Definition roll_step (w : nat) (vals : list cell) (st : mean_state) (i : nat)
  : mean_state :=
  let s := window_start w i in
  let e := window_end i in
  let fresh := foldl add_mean (setup (default nan (vals !! s))) (rows s e vals) in
  match i with
  | O => fresh
  | S i' =>
      if (window_end i' <=? s)%nat then fresh
      else foldl add_mean
             (foldl remove_mean st (rows (window_start w i') s vals))
             (rows (window_end i') e vals)
  end.

Fixpoint roll_loop (w minp : nat) (vals : list cell) (st : mean_state)
    (positions : list nat) : list cell :=
  match positions with
  | [] => []
  | i :: positions' =>
      let st' := roll_step w vals st i in
      calc_mean minp st' :: roll_loop w minp vals st' positions'
  end.

(** [rolling] works on float64 values: the values of an integer column
    are converted first, each to the nearest binary64 number. *)
Definition ensure_float64 (vals : list cell) : list cell :=
  fmap (M := option) Float64.round <$> vals.

(** [min_periods] is the window size. *)
Definition roll_mean (w : nat) (vals : list cell) : list cell :=
  let vals64 := ensure_float64 vals in
  roll_loop w w vals64 (setup nan) (seq 0 (length vals64)).

(** The observations below zero, and the state of the loop that holds the
    window [win] exactly: its count, its sum, nothing left in the two
    compensations. *)
Definition negatives (win : list Q) : nat :=
  length (List.filter (λ x : Q, Qlt_bool x 0) win).

Definition holds (st : mean_state) (win : list Q) : Prop :=
  nobs st = length win ∧
  (sum_x st == Qsum win)%Q ∧
  (compensation_add st == 0)%Q ∧
  (compensation_remove st == 0)%Q ∧
  neg_ct st = negatives win.

(** The observations in the window of position [i], and the state that
    the loop is in after position [i] when every operation has been exact:
    it holds that window, and the run of equal values that it counts ends
    at [i]. *)
Definition window (w i : nat) (xs : list Q) : list Q :=
  take (S i - (S i - w)) (drop (S i - w) xs).

Definition exact_at (w : nat) (xs : list Q) (i : nat) (st : mean_state) : Prop :=
  ∃ xi, xs !! i = Some xi ∧
        holds st (window w i xs) ∧
        prev_value st = Some xi ∧
        ∀ j x, (S i - num_consecutive_same_value st ≤ j ≤ i)%nat →
               xs !! j = Some x → (x == xi)%Q.

End Aggregations.

(** * Properties *)

(** ** Methods that only read *)

Lemma preserves_ret {A} (a : A) : preserves (ret a).
Proof. done. Qed.

Lemma preserves_raise {A} (e : exn) : preserves (@raise A e).
Proof. done. Qed.

Lemma preserves_lift {A} (r : result A) : preserves (lift r).
Proof. done. Qed.

Lemma preserves_read {A} (attr : TimeSeriesAnalyzer → A) : preserves (read attr).
Proof. done. Qed.

Lemma preserves_bind {A B} (m : M A) (k : A → M B) :
  preserves m → (∀ a, preserves (k a)) → preserves (m ≫= k).
Proof.
  intros Hm Hk self. unfold mbind, M_bind, bind.
  specialize (Hm self). destruct (m self) as [[a|e] self']; simpl in *; subst.
  - apply Hk.
  - done.
Qed.

Lemma preserves_validate_args {A} name (func : method A) args kwargs :
  (∀ a k, preserves (func a k)) → preserves (validate_args name func args kwargs).
Proof.
  intros Hf. unfold validate_args.
  repeat (case_match; try apply preserves_raise); apply Hf.
Qed.

Create HintDb frame.
#[export] Hint Resolve preserves_ret preserves_raise preserves_lift preserves_read
  : frame.

Ltac frame :=
  repeat first
    [ apply preserves_validate_args; intros
    | apply preserves_bind; [|intros]
    | progress auto with frame
    | case_match ].

Lemma preserves_calculate_moving_average args kwargs :
  preserves (calculate_moving_average args kwargs).
Proof. unfold calculate_moving_average, calculate_moving_average_body. frame. Qed.

Lemma preserves_calculate_differential args kwargs :
  preserves (calculate_differential args kwargs).
Proof. unfold calculate_differential. frame. Qed.

Lemma preserves_calculate_auto_correlation lags :
  preserves (calculate_auto_correlation lags).
Proof. unfold calculate_auto_correlation. frame. Qed.

Lemma preserves_find_maxima args kwargs : preserves (find_maxima args kwargs).
Proof. unfold find_maxima. frame. Qed.

Lemma preserves_find_minima args kwargs : preserves (find_minima args kwargs).
Proof. unfold find_minima. frame. Qed.

Lemma preserves_get_results : preserves get_results.
Proof.
  unfold get_results.
  apply preserves_bind; [apply preserves_calculate_moving_average | intros ?].
  apply preserves_bind; [apply preserves_calculate_differential | intros ?].
  apply preserves_bind; [apply preserves_calculate_auto_correlation | intros ?].
  apply preserves_bind; [apply preserves_find_maxima | intros ?].
  apply preserves_bind; [apply preserves_find_minima | intros ?].
  apply preserves_lift.
Qed.

Lemma preserves_save_to_dataframe res name : preserves (save_to_dataframe res name).
Proof. apply preserves_lift. Qed.

(** ** Running a call *)

Lemma run_bind_ok {A B} (m : M A) (k : A → M B) self a self' :
  m self = (Ok a, self') → (m ≫= k) self = k a self'.
Proof. intros H. unfold mbind, M_bind, bind. by rewrite H. Qed.

Lemma run_bind_raise {A B} (m : M A) (k : A → M B) self e self' :
  m self = (Raise e, self') → (m ≫= k) self = (Raise e, self').
Proof. intros H. unfold mbind, M_bind, bind. by rewrite H. Qed.

Lemma kwargs_empty_get (key : string) : (∅ : gmap string pyval) !! key = None.
Proof. apply lookup_empty. Qed.

Lemma validation_passes v :
  positive_int v → negb (isinstance_int v) || int_le0 v = false.
Proof.
  destruct v as [|[]|z| |]; simpl; try done. intros; lia.
Qed.

Lemma validation_fails v :
  ¬ positive_int v → negb (isinstance_int v) || int_le0 v = true.
Proof.
  destruct v as [|[]|z| |]; simpl; try done.
  intros. apply Z.leb_le. lia.
Qed.

Lemma validate_args_moving_average {A} (func : method A) args kwargs :
  validate_args "calculate_moving_average" func args kwargs =
    let window_size := default (PyInt 7) (kwargs !! "window_size") in
    if negb (isinstance_int window_size) || int_le0 window_size
    then raise (InvalidArgument "window_size")
    else func args kwargs.
Proof. reflexivity. Qed.

(** By name, the decorator sees the argument. *)
Lemma moving_average_by_name v self :
  calculate_moving_average [] {[ "window_size" := v ]} self =
    if negb (isinstance_int v) || int_le0 v
    then (Raise (InvalidArgument "window_size"), self)
    else calculate_moving_average_body v self.
Proof.
  unfold calculate_moving_average. rewrite validate_args_moving_average.
  rewrite lookup_singleton_eq. simpl.
  destruct (negb (isinstance_int v) || int_le0 v); [done|].
  unfold bind_window_size. rewrite delete_singleton_eq.
  rewrite bool_decide_eq_true_2 by done. rewrite lookup_singleton_eq. done.
Qed.

Lemma moving_average_by_name_invalid v self :
  ¬ positive_int v →
  calculate_moving_average [] {[ "window_size" := v ]} self
    = (Raise (InvalidArgument "window_size"), self).
Proof.
  intros Hv. unfold calculate_moving_average. rewrite validate_args_moving_average.
  rewrite lookup_singleton_eq. simpl. by rewrite validation_fails.
Qed.

(** Positionally, it sees the default and the body gets the argument
    unchecked. *)
Lemma moving_average_positional v self :
  calculate_moving_average [v] ∅ self = calculate_moving_average_body v self.
Proof.
  unfold calculate_moving_average. rewrite validate_args_moving_average.
  rewrite lookup_empty. simpl. done.
Qed.

Lemma moving_average_default self :
  calculate_moving_average [] ∅ self = calculate_moving_average_body (PyInt 7) self.
Proof.
  unfold calculate_moving_average. rewrite validate_args_moving_average.
  rewrite lookup_empty. simpl.
  unfold bind_window_size. rewrite delete_empty.
  rewrite bool_decide_eq_true_2 by done. rewrite lookup_empty. done.
Qed.

Lemma moving_average_body_int w self :
  calculate_moving_average_body (PyInt w) self =
    (if len (data self) <? w then Ok Pandas.empty
     else Pandas.rolling_mean w (data self), self).
Proof.
  unfold calculate_moving_average_body, mbind, M_bind, bind, read, lift. simpl.
  by destruct (len (data self) <? w).
Qed.

(** ** Series without missing cells *)

Lemma no_missing_values s : no_missing s → values s = Some <$> observations s.
Proof.
  unfold observations, values.
  induction 1 as [|[l c] s [q Hq] _ IH]; simpl in *; [done|].
  subst c. simpl. by f_equal.
Qed.

Lemma omap_id_Some {A} (l : list A) : omap id (Some <$> l) = l.
Proof. induction l; simpl; by f_equal. Qed.

Lemma length_observations s : no_missing s → length (observations s) = length s.
Proof.
  intros H. transitivity (length (values s)).
  - rewrite (no_missing_values s H). by rewrite length_fmap.
  - unfold values. by rewrite length_fmap.
Qed.

Lemma no_missing_load_data column : no_missing (_load_data column).
Proof.
  unfold no_missing, _load_data, Pandas.dropna.
  induction column as [|[l [q|]] s IH]; simpl; auto.
Qed.

(** ** The rolling mean *)

Lemma rolling_mean_ok w s :
  0 ≤ w →
  Pandas.rolling_mean w s =
    Ok (imap (λ i r, (r.1, Pandas.roll_mean (Z.to_nat w)
                             (Pandas.window_cells (Z.to_nat w) i (values s)))) s).
Proof.
  intros Hw. unfold Pandas.rolling_mean.
  destruct (Z.ltb_spec w 0) as [|_]; [lia|done].
Qed.

Lemma index_imap_fst (f : nat → label * cell → cell) (s : Series) :
  index (imap (λ i r, (r.1, f i r)) s) = index s.
Proof.
  unfold index. rewrite fmap_imap. simpl.
  revert f. induction s as [|r s IH]; intros f; simpl; [done|].
  f_equal. apply (IH (λ i, f (S i))).
Qed.

Lemma roll_mean_short n win : (length win < n)%nat → Pandas.roll_mean n win = None.
Proof.
  intros H. unfold Pandas.roll_mean.
  assert (length (omap id win) ≤ length win)%nat as Hle.
  { clear. induction win as [|[x|] win IH]; cbn; [lia| |]; cbn in IH; lia. }
  destruct (Nat.leb_spec n (length (omap id win))); [lia|done].
Qed.

Lemma roll_mean_empty_window n : Pandas.roll_mean n [] = None.
Proof. unfold Pandas.roll_mean. simpl. by rewrite andb_false_r. Qed.

Lemma roll_mean_full n (xs : list Q) :
  length xs = n → (0 < n)%nat → Pandas.roll_mean n (Some <$> xs) = Some (mean xs).
Proof.
  intros Hlen Hn. unfold Pandas.roll_mean. rewrite omap_id_Some, Hlen.
  rewrite Nat.leb_refl. destruct (Nat.ltb_spec 0 n); [|lia].
  simpl. unfold mean. by rewrite Hlen.
Qed.

Lemma window_cells_short n i vals :
  (S i < n)%nat → (length (Pandas.window_cells n i vals) < n)%nat.
Proof.
  intros H. unfold Pandas.window_cells. rewrite length_take. lia.
Qed.

Lemma window_cells_full n i (xs : list Q) :
  (n ≤ S i)%nat → (i < length xs)%nat →
  Pandas.window_cells n i (Some <$> xs) = Some <$> trailing n i xs ∧
  length (trailing n i xs) = n.
Proof.
  intros Hn Hi. unfold Pandas.window_cells, trailing.
  replace (S i - (S i - n))%nat with n by lia.
  rewrite fmap_take, fmap_drop. split; [done|].
  rewrite length_take, length_drop. lia.
Qed.

(** With a window of [0] every window is empty: all cells are NaN. *)
Lemma rolling_mean_zero s :
  Pandas.rolling_mean 0 s = Ok ((λ r, (r.1, nan)) <$> s).
Proof.
  rewrite rolling_mean_ok by lia. f_equal. simpl.
  apply list_eq. intros i. rewrite list_lookup_imap, list_lookup_fmap.
  destruct (_ !! i) as [r|]; simpl; [|done].
  unfold Pandas.window_cells. rewrite Nat.sub_0_r, Nat.sub_diag. simpl.
  by rewrite roll_mean_empty_window.
Qed.

(** The moving average over a series that is long enough and has no
    missing cell. *)
Lemma rolling_mean_spec w s :
  1 ≤ w → w ≤ len s → no_missing s →
  ∃ r, Pandas.rolling_mean w s = Ok r ∧
       index r = index s ∧
       (∀ i, (i < length s)%nat → (Z.of_nat i < w - 1) → values r !! i = Some nan) ∧
       (∀ i, (i < length s)%nat → (w - 1 ≤ Z.of_nat i) →
             values r !! i =
               Some (Some (mean (trailing (Z.to_nat w) i (observations s))))).
Proof.
  intros Hw Hlen Hs. eexists. split; [by apply rolling_mean_ok; lia|].
  split; [apply index_imap_fst|].
  assert (∀ i, (i < length s)%nat →
    values (imap (λ i r, (r.1, Pandas.roll_mean (Z.to_nat w)
                     (Pandas.window_cells (Z.to_nat w) i (values s)))) s) !! i
    = Some (Pandas.roll_mean (Z.to_nat w)
              (Pandas.window_cells (Z.to_nat w) i (values s)))) as Hlook.
  { intros i Hi. unfold values at 1. rewrite list_lookup_fmap, list_lookup_imap.
    destruct (lookup_lt_is_Some_2 s i Hi) as [row ->]. done. }
  split; intros i Hi Hiw; rewrite Hlook by done; do 2 f_equal.
  - apply roll_mean_short, window_cells_short. lia.
  - rewrite (no_missing_values s Hs).
    destruct (window_cells_full (Z.to_nat w) i (observations s)) as [-> Hl].
    + lia.
    + by rewrite length_observations.
    + apply roll_mean_full; [done|lia].
Qed.

(** ** Shifts, masks and selections *)

Lemma length_values (s : Series) : length (values s) = length s.
Proof. unfold values. by rewrite length_fmap. Qed.

Lemma length_index (s : Series) : length (index s) = length s.
Proof. unfold index. by rewrite length_fmap. Qed.

Lemma values_zip (idx : list label) (vals : list cell) :
  length vals = length idx → values (zip idx vals) = vals.
Proof. intros H. unfold values. apply snd_zip. lia. Qed.

Lemma index_zip (idx : list label) (vals : list cell) :
  length vals = length idx → index (zip idx vals) = idx.
Proof. intros H. unfold index. apply fst_zip. lia. Qed.

Lemma shift_prev vals :
  Pandas.shift_values 1 vals = take (length vals) (nan :: vals).
Proof. reflexivity. Qed.

Lemma shift_next vals :
  Pandas.shift_values (-1) vals =
    drop 1 vals ++ replicate (Nat.min 1 (length vals)) nan.
Proof. reflexivity. Qed.

Lemma length_shift_values p vals :
  length (Pandas.shift_values p vals) = length vals.
Proof.
  unfold Pandas.shift_values. destruct (p <? 0).
  - rewrite length_app, length_drop, length_replicate. lia.
  - rewrite length_take, length_app, length_replicate. lia.
Qed.

Lemma values_shift p s : values (Pandas.shift p s) = Pandas.shift_values p (values s).
Proof.
  unfold Pandas.shift. apply values_zip.
  by rewrite length_shift_values, length_values, length_index.
Qed.

Lemma shift_prev_lookup vals i :
  (i < length vals)%nat →
  Pandas.shift_values 1 vals !! i =
    match i with O => Some nan | S j => vals !! j end.
Proof.
  intros Hi. rewrite shift_prev, lookup_take_lt by done. by destruct i.
Qed.

Lemma shift_next_lookup vals i :
  (i < length vals)%nat →
  Pandas.shift_values (-1) vals !! i =
    if decide (S i < length vals)%nat then vals !! S i else Some nan.
Proof.
  intros Hi. rewrite shift_next. case_decide as Hlt.
  - rewrite lookup_app_l by (rewrite length_drop; lia).
    by rewrite lookup_drop.
  - rewrite lookup_app_r by (rewrite length_drop; lia).
    rewrite length_drop. apply lookup_replicate_2. lia.
Qed.

Lemma Qlt_bool_iff x y : Qlt_bool x y = true ↔ (x < y)%Q.
Proof. unfold Qlt_bool, Qlt. apply Z.ltb_lt. Qed.

Lemma cell_lt_iff a b :
  cell_lt a b = true ↔ ∃ x y, a = Some x ∧ b = Some y ∧ (x < y)%Q.
Proof.
  destruct a as [x|], b as [y|]; simpl.
  - rewrite Qlt_bool_iff. split; [by eauto|]. by intros (? & ? & [= <-] & [= <-] & ?).
  - split; [done|]. by intros (? & ? & ? & ? & ?).
  - split; [done|]. by intros (? & ? & ? & ? & ?).
  - split; [done|]. by intros (? & ? & ? & ? & ?).
Qed.

Section ExtremaMask.
Variable cmp : cell → cell → bool.
Variable R : Q → Q → Prop.
Hypothesis cmp_iff :
  ∀ a b, cmp a b = true ↔ ∃ x y, a = Some x ∧ b = Some y ∧ R x y.

Lemma length_mask_of s : length (mask_of cmp s) = length s.
Proof.
  unfold mask_of, Pandas.mask_and.
  rewrite !length_zip_with, !values_shift, !length_shift_values, !length_values.
  lia.
Qed.

Lemma mask_of_lookup s i :
  mask_of cmp s !! i = Some true ↔ strict_extremum R (values s) i.
Proof.
  unfold mask_of, Pandas.mask_and. rewrite !values_shift.
  set (vals := values s).
  rewrite lookup_zip_with_Some. split.
  - intros (b1 & b2 & Hb & H1 & H2).
    symmetry in Hb. apply andb_true_iff in Hb as [-> ->].
    apply lookup_zip_with_Some in H1 as (p & b & Hcp & Hp & Hb).
    apply lookup_zip_with_Some in H2 as (q & b' & Hcq & Hq & Hb').
    assert (b' = b) as -> by congruence.
    assert (i < length vals)%nat as Hi by (by eapply lookup_lt_Some).
    symmetry in Hcp, Hcq.
    apply cmp_iff in Hcp as (a & y & -> & -> & Hay).
    apply cmp_iff in Hcq as (c & y' & -> & [= <-] & Hcy).
    rewrite shift_prev_lookup in Hp by done.
    rewrite shift_next_lookup in Hq by done.
    destruct i as [|j]; [done|]. case_decide; [|done].
    exists a, y, c. replace (S j - 1)%nat with j by lia.
    replace (S j + 1)%nat with (S (S j)) by lia. repeat split; auto. lia.
  - intros (a & b & c & Hpos & Ha & Hb & Hc & Hab & Hcb).
    assert (i < length vals)%nat as Hi by (by eapply lookup_lt_Some).
    assert (i + 1 < length vals)%nat as Hi' by (by eapply lookup_lt_Some).
    exists true, true. split; [done|].
    split; apply lookup_zip_with_Some.
    + exists (Some a), (Some b). split; [|split; [|done]].
      * symmetry. apply cmp_iff. eauto.
      * rewrite shift_prev_lookup by done. destruct i; [lia|].
        by replace (S i - 1)%nat with i in Ha by lia.
    + exists (Some c), (Some b). split; [|split; [|done]].
      * symmetry. apply cmp_iff. eauto.
      * rewrite shift_next_lookup by done. case_decide; [|lia].
        by replace (i + 1)%nat with (S i) in Hc by lia.
Qed.
End ExtremaMask.

Lemma maxima_mask_eq s : maxima_mask s = mask_of cell_lt s.
Proof. reflexivity. Qed.

Lemma minima_mask_eq s : minima_mask s = mask_of cell_gt s.
Proof. reflexivity. Qed.

Lemma cell_gt_iff a b :
  cell_gt a b = true ↔ ∃ x y, a = Some x ∧ b = Some y ∧ (y < x)%Q.
Proof.
  unfold cell_gt. rewrite cell_lt_iff. split.
  - intros (x & y & -> & -> & H). eauto.
  - intros (x & y & -> & -> & H). eauto.
Qed.

Lemma maxima_mask_lookup s i :
  maxima_mask s !! i = Some true ↔ local_max (values s) i.
Proof. rewrite maxima_mask_eq. apply mask_of_lookup, cell_lt_iff. Qed.

Lemma minima_mask_lookup s i :
  minima_mask s !! i = Some true ↔ local_min (values s) i.
Proof. rewrite minima_mask_eq. apply mask_of_lookup, cell_gt_iff. Qed.

Lemma elem_of_true_positions k mask i :
  i ∈ true_positions k mask ↔ (k ≤ i)%nat ∧ mask !! (i - k)%nat = Some true.
Proof.
  revert k. induction mask as [|b mask IH]; intros k; simpl.
  - split; [by intros ?%elem_of_nil | by intros [_ ?]].
  - assert (i ∈ true_positions (S k) mask ↔
            (k < i)%nat ∧ (b :: mask) !! (i - k)%nat = Some true) as Hrest.
    { rewrite IH. split.
      - intros [Hle Hl]. split; [lia|].
        replace (i - k)%nat with (S (i - S k)) by lia. done.
      - intros [Hlt Hl]. split; [lia|].
        replace (i - k)%nat with (S (i - S k)) in Hl by lia. done. }
    destruct b.
    + rewrite elem_of_cons, Hrest. split.
      * intros [->|[? ?]]; [|split; [lia|done]].
        split; [lia|]. by rewrite Nat.sub_diag.
      * intros [Hle Hl]. destruct (decide (i = k)) as [->|]; [by left|].
        right. split; [lia|done].
    + rewrite Hrest. split.
      * intros [? ?]. split; [lia|done].
      * intros [Hle Hl]. destruct (decide (i = k)) as [->|].
        -- by rewrite Nat.sub_diag in Hl.
        -- split; [lia|done].
Qed.

Lemma true_positions_sorted k mask : StronglySorted lt (true_positions k mask).
Proof.
  revert k. induction mask as [|b mask IH]; intros k; simpl; [constructor|].
  destruct b; [|apply IH]. constructor; [apply IH|].
  apply Forall_forall. intros i Hi.
  apply elem_of_true_positions in Hi as [? _]. lia.
Qed.

Lemma getitem_mask_cons r (s : Series) b mask :
  Pandas.getitem_mask (r :: s) (b :: mask) =
    if b then r :: Pandas.getitem_mask s mask else Pandas.getitem_mask s mask.
Proof. unfold Pandas.getitem_mask. simpl. by destruct b. Qed.

Lemma getitem_mask_rows_from (pre s : Series) mask :
  length mask = length s →
  Pandas.getitem_mask s mask = rows_at (pre ++ s) (true_positions (length pre) mask).
Proof.
  revert pre mask. induction s as [|r s IH]; intros pre [|b mask] Hlen;
    simpl in Hlen; try done.
  rewrite getitem_mask_cons. simpl true_positions.
  specialize (IH (pre ++ [r]) mask). rewrite length_app in IH. simpl in IH.
  rewrite <- app_assoc in IH. simpl in IH.
  replace (length pre + 1)%nat with (S (length pre)) in IH by lia.
  destruct b; [|apply IH; lia].
  unfold rows_at at 1. simpl omap.
  rewrite lookup_app_r by lia. rewrite Nat.sub_diag. simpl.
  f_equal. apply IH. lia.
Qed.

Lemma getitem_mask_rows s mask :
  length mask = length s →
  Pandas.getitem_mask s mask = rows_at s (true_positions 0 mask).
Proof. intros H. by rewrite (getitem_mask_rows_from [] s mask H). Qed.

Lemma elem_of_positions mask i :
  i ∈ true_positions 0 mask ↔ mask !! i = Some true.
Proof.
  rewrite elem_of_true_positions, Nat.sub_0_r. split; [by intros [_ ?]|].
  intros. split; [lia|done].
Qed.

Lemma elem_of_rows_at s ps row :
  row ∈ rows_at s ps ↔ ∃ p, p ∈ ps ∧ s !! p = Some row.
Proof. unfold rows_at. apply list_elem_of_omap. Qed.

Lemma getitem_mask_sublist (s : Series) mask : Pandas.getitem_mask s mask `sublist_of` s.
Proof.
  revert mask. induction s as [|r s IH]; intros [|b mask]; try done.
  - apply sublist_nil_l.
  - rewrite getitem_mask_cons. destruct b.
    + by apply sublist_skip.
    + by apply sublist_cons.
Qed.

(** ** The first difference *)

Lemma cell_sub_nan_r a : cell_sub a nan = nan.
Proof. by destruct a. Qed.

Lemma diff_index s : index (Pandas.diff s) = index s.
Proof.
  unfold Pandas.diff. apply index_zip.
  rewrite length_zip_with, length_shift_values, length_values, length_index. lia.
Qed.

Lemma diff_values s :
  values (Pandas.diff s) =
    zip_with cell_sub (values s) (Pandas.shift_values 1 (values s)).
Proof.
  unfold Pandas.diff. apply values_zip.
  rewrite length_zip_with, length_shift_values, length_values, length_index. lia.
Qed.

Lemma diff_first s c : values (Pandas.diff s) !! 0%nat = Some c → c = nan.
Proof.
  rewrite diff_values. intros (a & b & -> & Ha & Hb)%lookup_zip_with_Some.
  rewrite shift_prev_lookup in Hb by (by eapply lookup_lt_Some).
  injection Hb as <-. apply cell_sub_nan_r.
Qed.

Lemma diff_later s i a b :
  values s !! i = Some b → values s !! S i = Some a →
  values (Pandas.diff s) !! S i = Some (cell_sub a b).
Proof.
  intros Hb Ha. rewrite diff_values. apply lookup_zip_with_Some.
  exists a, b. split; [done|]. split; [done|].
  rewrite shift_prev_lookup by (by eapply lookup_lt_Some). done.
Qed.

(** ** The autocorrelation series *)

Lemma length_dropna_le (s : Series) : (length (Pandas.dropna s) ≤ length s)%nat.
Proof.
  unfold Pandas.dropna. induction s as [|r s IH]; simpl; [lia|].
  destruct (notnull r.2); simpl; lia.
Qed.

Lemma count_missing_dropna (s : Series) :
  (count_missing s + length (Pandas.dropna s) = length s)%nat.
Proof.
  unfold count_missing, Pandas.dropna, values, notnull.
  induction s as [|[l c] s IH]; [done|].
  rewrite fmap_cons. destruct c; simpl List.filter; simpl length; lia.
Qed.

Lemma no_missing_dropna (s : Series) : no_missing (Pandas.dropna s).
Proof. apply (no_missing_load_data s). Qed.

Lemma isnull_all_dropna (s : Series) :
  Pandas.isnull_all s = true → Pandas.dropna s = [].
Proof.
  unfold Pandas.isnull_all, Pandas.dropna, values, notnull.
  induction s as [|[l c] s IH]; simpl; [done|].
  destruct c; simpl; [done|]. apply IH.
Qed.

Lemma length_slice_to {A} (k : Z) (l : list A) :
  (length (Py.slice_to k l) ≤ length l)%nat.
Proof. unfold Py.slice_to. destruct (k <? 0); rewrite length_take; lia. Qed.

Lemma length_slice_to_nonneg {A} (k : Z) (l : list A) :
  0 ≤ k → length (Py.slice_to k l) = Nat.min (Z.to_nat k) (length l).
Proof.
  intros Hk. unfold Py.slice_to.
  destruct (Z.ltb_spec k 0); [lia|]. by rewrite length_take.
Qed.

Lemma length_acovf x : length (Stattools.acovf x) = length x.
Proof. unfold Stattools.acovf. by rewrite length_fmap, length_seq. Qed.

Lemma length_acf_le x nlags : (length (Stattools.acf x nlags) ≤ length x)%nat.
Proof.
  unfold Stattools.acf. rewrite length_fmap.
  etrans; [apply length_slice_to|]. by rewrite length_acovf.
Qed.

Lemma length_acf x nlags :
  0 ≤ nlags →
  length (Stattools.acf x nlags) = Nat.min (Z.to_nat (nlags + 1)) (length x).
Proof.
  intros H. unfold Stattools.acf.
  rewrite length_fmap, length_slice_to_nonneg, length_acovf by lia. done.
Qed.

Lemma length_kept_coefficients_lt mad lags :
  (0 < length (Pandas.dropna mad))%nat →
  (length (kept_coefficients mad lags) < length (Pandas.dropna mad))%nat.
Proof.
  intros Hv. unfold kept_coefficients, Py.slice_from1. rewrite length_drop.
  pose proof (length_acf_le (observations (Pandas.dropna mad))
                (match lags with None => len (Pandas.dropna mad) - 1 | Some l => l end)) as H.
  rewrite length_observations in H by apply no_missing_dropna. lia.
Qed.

Lemma length_kept_coefficients mad lags :
  (0 < length (Pandas.dropna mad))%nat →
  match lags with None => True | Some l => 0 ≤ l end →
  length (kept_coefficients mad lags) =
    Z.to_nat (Z.min (match lags with
                     | None => len (Pandas.dropna mad) - 1
                     | Some l => l
                     end)
                    (len (Pandas.dropna mad) - 1)).
Proof.
  intros Hv Hl. unfold kept_coefficients, Py.slice_from1. rewrite length_drop.
  rewrite length_acf.
  - rewrite length_observations by apply no_missing_dropna.
    unfold len in *. destruct lags; lia.
  - unfold len. destruct lags; lia.
Qed.

Lemma mk_ok vals idx :
  length vals = length idx → Pandas.mk vals idx = Ok (zip idx vals).
Proof. intros H. unfold Pandas.mk. rewrite H, Nat.eqb_refl. done. Qed.

Lemma set_index_ok (s : Series) idx :
  length s = length idx → Pandas.set_index s idx = Ok (zip idx (values s)).
Proof. intros H. unfold Pandas.set_index. rewrite H, Nat.eqb_refl. done. Qed.

Lemma all_nan_ok (mad : Series) :
  Pandas.mk (Py.times nan (len mad)) (index mad) =
    Ok (zip (index mad) (replicate (length mad) nan)).
Proof.
  unfold Py.times, len. rewrite Nat2Z.id. apply mk_ok.
  by rewrite length_replicate, length_index.
Qed.

(** Too few valid cells: an all-NaN series over the stored index, whatever
    [lags] is. *)
Lemma auto_correlation_degenerate self lags :
  let mad := moving_avg_data self in
  len (Pandas.dropna mad) < 2 →
  calculate_auto_correlation lags self =
    (Ok (zip (index mad) (replicate (length mad) nan)), self).
Proof.
  intros mad Hv. unfold calculate_auto_correlation, mbind, M_bind, bind, read, lift.
  fold mad. destruct (Pandas.isnull_all mad); [by rewrite all_nan_ok|].
  destruct (Z.ltb_spec (len (Pandas.dropna mad)) 2); [|lia].
  by rewrite all_nan_ok.
Qed.

(** At least two valid cells: NaN padding in front, then the kept
    coefficients, over the stored index; no [lags] makes the call raise. *)
Lemma auto_correlation_regular self lags :
  let mad := moving_avg_data self in
  let tail := kept_coefficients mad lags in
  2 ≤ len (Pandas.dropna mad) →
  calculate_auto_correlation lags self =
    (Ok (zip (index mad) (replicate (length mad - length tail) nan ++ tail)), self).
Proof.
  intros mad tail Hv.
  assert (0 < length (Pandas.dropna mad))%nat as Hpos by (unfold len in Hv; lia).
  pose proof (length_kept_coefficients_lt mad lags Hpos) as Hk. fold tail in Hk.
  pose proof (length_dropna_le mad) as Hle.
  unfold calculate_auto_correlation, mbind, M_bind, bind, read, lift. fold mad.
  destruct (Pandas.isnull_all mad) eqn:Hnull.
  { apply isnull_all_dropna in Hnull. rewrite Hnull in Hpos. simpl in Hpos. lia. }
  destruct (Z.ltb_spec (len (Pandas.dropna mad)) 2); [lia|].
  change (Py.slice_from1 (Stattools.acf (omap id (values (Pandas.dropna mad))) _))
    with tail.
  assert (len mad - Z.of_nat (length tail) = Z.of_nat (length mad - length tail)) as ->
    by (unfold len; lia).
  unfold Py.times, Py.slice_to.
  destruct (Z.ltb_spec (Z.of_nat (length mad - length tail)) 0); [lia|].
  destruct (Z.ltb_spec (Z.of_nat (length tail)) 0); [lia|].
  rewrite !Nat2Z.id.
  rewrite mk_ok by (rewrite length_replicate, length_take, length_index; lia).
  rewrite mk_ok by (rewrite length_take, length_index; lia).
  unfold Pandas.concat. rewrite set_index_ok.
  - do 2 f_equal. unfold values. rewrite fmap_app.
    rewrite !snd_zip; [done| |].
    + rewrite length_take, length_index. lia.
    + rewrite length_replicate, length_take, length_index. lia.
  - rewrite length_app, !length_zip, !length_take, !length_index, length_replicate.
    lia.
Qed.

(** ** The index of a frame *)

Lemma elem_of_insert_sorted x y l :
  y ∈ Frame.insert_sorted x l ↔ y = x ∨ y ∈ l.
Proof.
  induction l as [|z l IH]; simpl.
  - rewrite list_elem_of_singleton. split; [by left|]. intros [?|?%elem_of_nil]; done.
  - destruct (Z.ltb_spec x z); [by rewrite elem_of_cons|].
    destruct (Z.eqb_spec x z) as [->|].
    + rewrite elem_of_cons. tauto.
    + rewrite !elem_of_cons, IH. tauto.
Qed.

Lemma insert_sorted_sorted x l :
  StronglySorted Z.lt l → StronglySorted Z.lt (Frame.insert_sorted x l).
Proof.
  induction 1 as [|z l Hl IH Hz]; simpl.
  - repeat constructor.
  - destruct (Z.ltb_spec x z).
    + constructor; [by constructor|]. constructor; [done|].
      eapply Forall_impl; [exact Hz|]. simpl. intros; lia.
    + destruct (Z.eqb_spec x z); [by constructor|].
      constructor; [done|]. apply Forall_forall. intros y Hy.
      apply elem_of_insert_sorted in Hy as [->|Hy]; [lia|].
      rewrite Forall_forall in Hz. by apply Hz.
Qed.

Lemma sort_unique_sorted l : StronglySorted Z.lt (Frame.sort_unique l).
Proof.
  induction l; simpl; [constructor|]. by apply insert_sorted_sorted.
Qed.

Lemma elem_of_sort_unique x l : x ∈ Frame.sort_unique l ↔ x ∈ l.
Proof.
  induction l as [|y l IH]; simpl; [done|].
  by rewrite elem_of_insert_sorted, elem_of_cons, IH.
Qed.

Lemma strictly_sorted_ext (l1 l2 : list Z) :
  StronglySorted Z.lt l1 → StronglySorted Z.lt l2 →
  (∀ x, x ∈ l1 ↔ x ∈ l2) → l1 = l2.
Proof.
  intros H1. revert l2. induction H1 as [|x l1 Hs1 IH Hx]; intros l2 H2 Hel.
  - destruct l2 as [|y l2]; [done|].
    exfalso. eapply elem_of_nil, Hel, list_elem_of_here.
  - destruct H2 as [|y l2 Hs2 Hy].
    { exfalso. eapply elem_of_nil, Hel, list_elem_of_here. }
    rewrite Forall_forall in Hx, Hy.
    assert (x = y) as ->.
    { pose proof (proj1 (Hel x) (list_elem_of_here _ _)) as Hxin.
      pose proof (proj2 (Hel y) (list_elem_of_here _ _)) as Hyin.
      apply elem_of_cons in Hxin as [?|Hxin]; [done|].
      apply elem_of_cons in Hyin as [?|Hyin]; [done|].
      apply Hy in Hxin. apply Hx in Hyin. lia. }
    f_equal. apply IH; [done|]. intros z. split; intros Hz.
    + pose proof (proj1 (Hel z) (list_elem_of_further _ _ _ Hz)) as Hz'.
      apply elem_of_cons in Hz' as [->|?]; [|done].
      apply Hx in Hz. lia.
    + pose proof (proj2 (Hel z) (list_elem_of_further _ _ _ Hz)) as Hz'.
      apply elem_of_cons in Hz' as [->|?]; [|done].
      apply Hy in Hz. lia.
Qed.

Lemma strictly_sorted_NoDup (l : list Z) : StronglySorted Z.lt l → NoDup l.
Proof.
  induction 1 as [|x l Hs IH Hx]; constructor; [|done].
  rewrite Forall_forall in Hx. intros Hin%Hx. lia.
Qed.

(** The union of an index with itself and with parts of itself is that
    index. *)
Lemma union_indexes_same (idx : list label) (idxs : list (list label)) :
  StronglySorted Z.lt idx →
  Forall (λ i, i ⊆ idx) idxs →
  Frame.union_indexes (idx :: idxs) = idx.
Proof.
  intros Hs Hsub. unfold Frame.union_indexes.
  destruct (forallb _ idxs); [done|].
  apply strictly_sorted_ext; [apply sort_unique_sorted|done|].
  intros x. rewrite elem_of_sort_unique. simpl. rewrite elem_of_app.
  split; [|by left]. intros [?|Hin]; [done|].
  induction Hsub as [|i idxs Hi _ IH]; simpl in Hin; [by apply elem_of_nil in Hin|].
  apply elem_of_app in Hin as [?|?]; [by apply Hi|by apply IH].
Qed.

Lemma union_indexes_all_same (idx : list label) (n : nat) :
  Frame.union_indexes (replicate (S n) idx) = idx.
Proof.
  simpl. replace (forallb _ _) with true; [done|].
  symmetry. apply forallb_forall. intros i Hi%list_elem_of_In.
  apply elem_of_replicate in Hi as [-> _]. by apply bool_decide_eq_true_2.
Qed.

Lemma reindex_same (s : Series) : Frame.reindex s (index s) = Ok s.
Proof. unfold Frame.reindex. by rewrite bool_decide_eq_true_2. Qed.

Lemma reindex_ok (s : Series) idx :
  NoDup (index s) →
  ∃ s', Frame.reindex s idx = Ok s' ∧ index s' = idx.
Proof.
  intros Hnd. unfold Frame.reindex. case_bool_decide as Heq.
  - by exists s.
  - rewrite bool_decide_eq_true_2 by done. eexists. split; [done|].
    unfold index. rewrite <- list_fmap_compose. apply list_fmap_id.
Qed.

(** ** Running the parameterless methods and the constructor *)

Lemma differential_run self :
  calculate_differential [] ∅ self = (Ok (Pandas.diff (moving_avg_data self)), self).
Proof. reflexivity. Qed.

Lemma find_maxima_run self :
  find_maxima [] ∅ self =
    (Ok (Pandas.getitem_mask (moving_avg_data self) (maxima_mask (moving_avg_data self))),
     self).
Proof. reflexivity. Qed.

Lemma find_minima_run self :
  find_minima [] ∅ self =
    (Ok (Pandas.getitem_mask (moving_avg_data self) (minima_mask (moving_avg_data self))),
     self).
Proof. reflexivity. Qed.

Lemma auto_correlation_run self lags :
  ∃ r, calculate_auto_correlation lags self = (Ok r, self) ∧
       index r = index (moving_avg_data self).
Proof.
  destruct (Z.lt_ge_cases (len (Pandas.dropna (moving_avg_data self))) 2) as [Hv|Hv].
  - eexists. split; [by apply auto_correlation_degenerate|].
    apply index_zip. by rewrite length_replicate, length_index.
  - eexists. split; [by apply auto_correlation_regular|].
    apply index_zip. rewrite length_app, length_replicate, length_index.
    pose proof (length_kept_coefficients_lt (moving_avg_data self) lags) as Hk.
    pose proof (length_dropna_le (moving_avg_data self)).
    unfold len in Hv. lia.
Qed.

Lemma moving_average_default_run self :
  calculate_moving_average [] ∅ self = (Ok (default_moving_average (data self)), self).
Proof.
  rewrite moving_average_default, moving_average_body_int.
  unfold default_moving_average. by destruct (len (data self) <? 7).
Qed.

Lemma init_run kw tf column :
  __init__ kw tf column =
    Ok {| keyword := kw; timeframe := tf; data := _load_data column;
          moving_avg_data := default_moving_average (_load_data column) |}.
Proof.
  unfold __init__.
  rewrite (run_bind_ok _ _ _ _ _ (moving_average_default_run _)). done.
Qed.

Lemma index_default_moving_average d :
  7 ≤ len d → index (default_moving_average d) = index d.
Proof.
  intros H. unfold default_moving_average.
  destruct (Z.ltb_spec (len d) 7); [lia|]. apply index_imap_fst.
Qed.

Lemma default_moving_average_short d :
  len d < 7 → default_moving_average d = [].
Proof.
  intros H. unfold default_moving_average.
  destruct (Z.ltb_spec (len d) 7); [done|lia].
Qed.

(** ** The results table *)

Lemma reindex_same_index (s : Series) idx : index s = idx → Frame.reindex s idx = Ok s.
Proof. intros <-. apply reindex_same. Qed.

Lemma sublist_subseteq_index (s t : Series) : s `sublist_of` t → index s ⊆ index t.
Proof.
  intros H x Hx. eapply elem_of_sublist; [exact Hx|]. by apply fmap_sublist.
Qed.

Lemma get_results_run self :
  let mad := moving_avg_data self in
  index (default_moving_average (data self)) = index mad →
  StronglySorted Z.lt (index mad) →
  ∃ df, get_results self = (Ok df, self) ∧
        Frame.df_index df = index mad ∧
        (Frame.df_columns df).*1 =
          ["Moving Average"; "Differential"; "Auto correlation"; "Maxima"; "Minima"] ∧
        Forall (λ c, length c.2 = length mad) (Frame.df_columns df).
Proof.
  intros mad Hma Hsorted.
  destruct (auto_correlation_run self None) as (ac & Hac & Hacidx). fold mad in Hacidx.
  pose proof (getitem_mask_sublist mad (maxima_mask mad)) as Hmax.
  pose proof (getitem_mask_sublist mad (minima_mask mad)) as Hmin.
  set (mx := Pandas.getitem_mask mad (maxima_mask mad)) in *.
  set (mn := Pandas.getitem_mask mad (minima_mask mad)) in *.
  assert (NoDup (index mad)) as Hnd by (by apply strictly_sorted_NoDup).
  destruct (reindex_ok mx (index mad)) as (mx' & Hmx' & Hmxi).
  { eapply sublist_NoDup; [exact Hnd|]. by apply fmap_sublist. }
  destruct (reindex_ok mn (index mad)) as (mn' & Hmn' & Hmni).
  { eapply sublist_NoDup; [exact Hnd|]. by apply fmap_sublist. }
  unfold get_results.
  rewrite (run_bind_ok _ _ _ _ _ (moving_average_default_run self)).
  rewrite (run_bind_ok _ _ _ _ _ (differential_run self)).
  rewrite (run_bind_ok _ _ _ _ _ Hac).
  rewrite (run_bind_ok _ _ _ _ _ (find_maxima_run self)).
  rewrite (run_bind_ok _ _ _ _ _ (find_minima_run self)).
  fold mad mx mn. unfold lift, Frame.from_dict.
  assert (Frame.union_indexes
            ((λ c : string * Series, index c.2) <$>
               [("Moving Average", default_moving_average (data self));
                ("Differential", Pandas.diff mad); ("Auto correlation", ac);
                ("Maxima", mx); ("Minima", mn)]) = index mad) as ->.
  { change (Frame.union_indexes
              [index (default_moving_average (data self)); index (Pandas.diff mad);
               index ac; index mx; index mn] = index mad).
    rewrite Hma, diff_index, Hacidx.
    apply union_indexes_same; [done|].
    repeat constructor; try done; by apply sublist_subseteq_index. }
  cbn [Frame.homogenize].
  rewrite (reindex_same_index _ _ Hma), (reindex_same_index _ _ (diff_index mad)),
    (reindex_same_index _ _ Hacidx), Hmx', Hmn'.
  eexists. split; [done|]. simpl. split; [done|]. split; [done|].
  assert (∀ s : Series, index s = index mad → length (values s) = length mad) as Hl.
  { intros s Hs. rewrite length_values, <- (length_index s), Hs. apply length_index. }
  repeat constructor; simpl; apply Hl; try done. apply diff_index.
Qed.

(** ** Binary64: where rounding changes nothing *)

Lemma pow2_pos e : (0 < Float64.pow2 e)%Q.
Proof. apply Qpower_0_lt. reflexivity. Qed.

Lemma pow2_plus a b : (Float64.pow2 (a + b) == Float64.pow2 a * Float64.pow2 b)%Q.
Proof. apply Qpower_plus. discriminate. Qed.

Lemma pow2_inject e : 0 ≤ e → (Float64.pow2 e == inject_Z (2 ^ e))%Q.
Proof.
  intros He. unfold Float64.pow2. change 2%Q with (inject_Z 2).
  by rewrite Zpower_Qpower.
Qed.

Lemma pow2_lt_inv a b : (Float64.pow2 a < Float64.pow2 b)%Q → a < b.
Proof. intros H. eapply Qpower_lt_compat_l_inv; [exact H | reflexivity]. Qed.

(** [2 ^ ilog2 q] is at most [|q|]. *)
Lemma ilog2_le (q : Q) : ¬ (q == 0)%Q → (Float64.pow2 (Float64.ilog2 q) <= Qabs q)%Q.
Proof.
  intros Hq. unfold Float64.ilog2.
  destruct (Qle_bool _ _) eqn:E; [by apply Qle_bool_iff|]. clear E.
  destruct q as [n d].
  assert (n ≠ 0) as Hn.
  { intros ->. apply Hq. reflexivity. }
  cbn [Qnum Qden].
  set (la := Z.log2 (Z.abs n)). set (ld := Z.log2 (Z.pos d)).
  assert (0 ≤ la) as Hla by apply Z.log2_nonneg.
  assert (0 ≤ ld) as Hld by apply Z.log2_nonneg.
  assert (2 ^ la ≤ Z.abs n) as H1 by (apply Z.log2_spec; lia).
  assert (Z.pos d < 2 ^ (ld + 1)) as H2.
  { replace (ld + 1) with (Z.succ ld) by lia. apply Z.log2_spec. lia. }
  replace (la - ld - 1) with (la - (ld + 1)) by lia.
  unfold Float64.pow2. rewrite Qpower_minus by discriminate.
  change 2%Q with (inject_Z 2).
  rewrite <- !Zpower_Qpower by lia.
  assert (0 < 2 ^ (ld + 1)) as Hp by (apply Z.pow_pos_nonneg; lia).
  apply Qle_shift_div_r.
  { change 0%Q with (inject_Z 0). rewrite <- Zlt_Qlt. done. }
  change (Qabs (n # d)) with (Z.abs n # d)%Q.
  unfold Qle, Qmult, inject_Z. cbn [Qnum Qden].
  rewrite !Z.mul_1_r.
  change (Z.pos (d * 1)) with (Z.pos d * 1). rewrite Z.mul_1_r.
  apply Z.le_trans with (Z.abs n * Z.pos d); [nia|].
  apply Z.mul_le_mono_nonneg_l; lia.
Qed.

Lemma round_half_even_inject (q : Q) (k : Z) :
  (q == inject_Z k)%Q → Float64.round_half_even q = k.
Proof.
  intros Hq. unfold Float64.round_half_even.
  assert (Qfloor q = k) as -> by (rewrite Hq; apply Qfloor_Z).
  destruct (Qcompare_spec (q - inject_Z k) (1 # 2)) as [H|H|H]; [|done|].
  - rewrite Hq in H. exfalso. revert H. unfold Qeq, Qminus, Qplus, Qopp, inject_Z.
    cbn [Qnum Qden]. lia.
  - rewrite Hq in H. exfalso. revert H. unfold Qlt, Qminus, Qplus, Qopp, inject_Z.
    cbn [Qnum Qden]. lia.
Qed.

Lemma representable_Qeq (q q' : Q) :
  (q == q')%Q → Float64.representable q → Float64.representable q'.
Proof. intros Hq (m & e & Hm & He & Hv). exists m, e. by rewrite <- Hq. Qed.

Lemma round_representable (q : Q) : Float64.representable q → (Float64.round q == q)%Q.
Proof.
  intros (m & e0 & Hm & He0 & Hv). unfold Float64.round.
  destruct (Qeq_bool q 0) eqn:E.
  { apply Qeq_bool_iff in E. by rewrite E. }
  apply Qeq_bool_neq in E.
  set (e := Z.max (Float64.ilog2 q - 52) (-1074)).
  assert (e ≤ e0) as Hle.
  { assert (Float64.ilog2 q < 53 + e0); [|lia].
    apply pow2_lt_inv. eapply Qle_lt_trans; [by apply ilog2_le|].
    rewrite Hv, Qabs_Qmult, pow2_plus.
    rewrite (Qabs_pos (Float64.pow2 e0)) by apply Qlt_le_weak, pow2_pos.
    apply Qmult_lt_compat_r; [apply pow2_pos|].
    rewrite pow2_inject by lia.
    replace (Qabs (inject_Z m)) with (inject_Z (Z.abs m)) by (by destruct m).
    by rewrite <- Zlt_Qlt. }
  assert (q / Float64.pow2 e == inject_Z (m * 2 ^ (e0 - e)))%Q as Hint.
  { rewrite Hv. replace e0 with ((e0 - e) + e) at 1 by lia.
    rewrite pow2_plus, (pow2_inject (e0 - e)) by lia.
    rewrite inject_Z_mult. field.
    intros H. pose proof (pow2_pos e) as Hp. rewrite H in Hp. by apply Qlt_irrefl in Hp. }
  rewrite (round_half_even_inject _ _ Hint).
  rewrite inject_Z_mult, <- (pow2_inject (e0 - e)) by lia.
  rewrite <- Qmult_assoc, <- pow2_plus. replace (e0 - e + e) with e0 by lia.
  by rewrite Hv.
Qed.

Lemma representable_int (z : Z) : Z.abs z < 2 ^ 53 → Float64.representable (inject_Z z).
Proof.
  intros Hz. exists z, 0. split; [done|]. split; [lia|].
  unfold Float64.pow2. rewrite Qpower_0_r. by rewrite Qmult_1_r.
Qed.

Lemma round_int (q : Q) (z : Z) :
  (q == inject_Z z)%Q → Z.abs z < 2 ^ 53 → (Float64.round q == inject_Z z)%Q.
Proof.
  intros Hq Hz. etrans; [|exact Hq]. apply round_representable.
  apply (representable_Qeq (inject_Z z)); [by symmetry|]. by apply representable_int.
Qed.

(** ** The running sum of pandas on small integers *)

Lemma Qsum_snoc l y : (Qsum (l ++ [y]) == Qsum l + y)%Q.
Proof.
  induction l as [|x l IH]; simpl.
  - lra.
  - rewrite IH. lra.
Qed.

Lemma small_int_sum (B : Z) (l : list Q) :
  Forall (Float64.small_int B) l →
  ∃ T, (Qsum l == inject_Z T)%Q ∧ Z.abs T ≤ B * Z.of_nat (length l).
Proof.
  induction 1 as [|x l [Hx Hb] _ (T & HT & Hbound)].
  - exists 0. split; [reflexivity|]. simpl. lia.
  - exists (Qfloor x + T). split.
    + cbn [Qsum fold_right]. fold (Qsum l). rewrite HT, inject_Z_plus, <- Hx. reflexivity.
    + simpl length. lia.
Qed.

Lemma add_mean_exact st v z T :
  (Aggregations.compensation_add st == 0)%Q →
  (v == inject_Z z)%Q → Z.abs z < 2 ^ 53 →
  (Aggregations.sum_x st + v == inject_Z T)%Q → Z.abs T < 2 ^ 53 →
  let st' := Aggregations.add_mean st (Some v) in
  (Aggregations.sum_x st' == Aggregations.sum_x st + v)%Q ∧
  (Aggregations.compensation_add st' == 0)%Q.
Proof.
  intros Hc Hv Hz HT HTb. cbn [Aggregations.add_mean].
  cbn [Aggregations.sum_x Aggregations.compensation_add].
  set (y := Float64.sub v (Aggregations.compensation_add st)).
  assert (y == inject_Z z)%Q as Hy.
  { apply round_int; [|done]. rewrite Hc, <- Hv. ring. }
  set (t := Float64.add (Aggregations.sum_x st) y).
  assert (t == inject_Z T)%Q as Ht.
  { apply round_int; [|done]. rewrite Hy, <- Hv. exact HT. }
  split; [by rewrite Ht, HT|].
  unfold Float64.sub at 1.
  assert (Float64.sub t (Aggregations.sum_x st) == inject_Z z)%Q as Hd.
  { apply round_int; [|done]. rewrite Ht, <- HT, <- Hv. ring. }
  apply (round_int _ 0); [|done]. rewrite Hd, Hy. ring.
Qed.

Lemma remove_mean_exact st v z T :
  (Aggregations.compensation_remove st == 0)%Q →
  (v == inject_Z z)%Q → Z.abs z < 2 ^ 53 →
  (Aggregations.sum_x st - v == inject_Z T)%Q → Z.abs T < 2 ^ 53 →
  let st' := Aggregations.remove_mean st (Some v) in
  (Aggregations.sum_x st' == Aggregations.sum_x st - v)%Q ∧
  (Aggregations.compensation_remove st' == 0)%Q.
Proof.
  intros Hc Hv Hz HT HTb. cbn [Aggregations.remove_mean].
  cbn [Aggregations.sum_x Aggregations.compensation_remove].
  set (y := Float64.sub (- v) (Aggregations.compensation_remove st)).
  assert (y == inject_Z (- z))%Q as Hy.
  { apply round_int; [|lia]. rewrite Hc, inject_Z_opp, <- Hv. ring. }
  set (t := Float64.add (Aggregations.sum_x st) y).
  assert (t == inject_Z T)%Q as Ht.
  { apply round_int; [|done]. rewrite Hy, inject_Z_opp, <- Hv. rewrite <- HT. ring. }
  split; [by rewrite Ht, HT|].
  unfold Float64.sub at 1.
  assert (Float64.sub t (Aggregations.sum_x st) == inject_Z (- z))%Q as Hd.
  { apply round_int; [|lia]. rewrite Ht, <- HT, inject_Z_opp, <- Hv. ring. }
  apply (round_int _ 0); [|done]. rewrite Hd, Hy. ring.
Qed.

Lemma roll_loop_lookup w minp vals st positions j :
  (j < length positions)%nat →
  Aggregations.roll_loop w minp vals st positions !! j
  = Some (Aggregations.calc_mean minp
            (foldl (Aggregations.roll_step w vals) st (take (S j) positions))).
Proof.
  revert st j. induction positions as [|i positions IH]; intros st j Hj; [simpl in Hj; lia|].
  destruct j as [|j]; [done|]. simpl. apply IH. simpl in Hj. lia.
Qed.

Lemma negatives_app (l : list Q) y :
  Aggregations.negatives (l ++ [y])
  = (Aggregations.negatives l + (if Qlt_bool y 0 then 1 else 0))%nat.
Proof.
  unfold Aggregations.negatives. rewrite List.filter_app, length_app. simpl.
  by destruct (Qlt_bool y 0).
Qed.

Section RollMeanExact.

Variables (w : nat) (B : Z).
Hypothesis Hw : (0 < w)%nat.
Hypothesis HB : B * Z.of_nat w < 2 ^ 53.


Lemma window_sum_small (win : list Q) :
  Forall (Float64.small_int B) win → (length win ≤ w)%nat →
  ∃ T, (Qsum win == inject_Z T)%Q ∧ Z.abs T < 2 ^ 53.
Proof.
  intros Hwin Hlen. destruct (small_int_sum B win Hwin) as (T & HT & Hb).
  exists T. split; [done|]. destruct win as [|x win]; [simpl in Hb; lia|].
  apply Forall_cons in Hwin as [[_ Hx] _].
  assert (0 ≤ B) by lia. nia.
Qed.

Lemma holds_setup c : Aggregations.holds (Aggregations.setup c) [].
Proof. repeat split; reflexivity. Qed.

Lemma holds_add st win v :
  Aggregations.holds st win → Forall (Float64.small_int B) (win ++ [v]) → (length (win ++ [v]) ≤ w)%nat →
  Aggregations.holds (Aggregations.add_mean st (Some v)) (win ++ [v]).
Proof.
  intros (Hn & Hs & Hca & Hcr & Hneg) Hall Hlen.
  destruct (window_sum_small _ Hall Hlen) as (T & HT & HTb).
  assert (Float64.small_int B v) as [Hv Hvb].
  { apply Forall_app in Hall as [_ Hv]. by apply Forall_cons in Hv as [Hv _]. }
  rewrite Qsum_snoc in HT.
  destruct (add_mean_exact st v (Qfloor v) T) as [Hsum Hcomp];
    [done | done | nia | by rewrite Hs | done |].
  split; [|split; [|split; [|split]]].
  - cbn [Aggregations.add_mean Aggregations.nobs]. rewrite Hn, length_app. simpl. lia.
  - rewrite Hsum, Hs, Qsum_snoc. reflexivity.
  - exact Hcomp.
  - exact Hcr.
  - cbn [Aggregations.add_mean Aggregations.neg_ct]. rewrite negatives_app, Hneg.
    destruct (Qlt_bool v 0); lia.
Qed.

Lemma holds_remove st xo mid :
  Aggregations.holds st (xo :: mid) → Forall (Float64.small_int B) (xo :: mid) →
  (length (xo :: mid) ≤ w)%nat →
  Aggregations.holds (Aggregations.remove_mean st (Some xo)) mid.
Proof.
  intros (Hn & Hs & Hca & Hcr & Hneg) Hall Hlen.
  apply Forall_cons in Hall as [[Hv Hvb] Hmid].
  destruct (window_sum_small mid Hmid) as (T & HT & HTb); [simpl in Hlen; lia|].
  cbn [Qsum fold_right] in Hs. fold (Qsum mid) in Hs.
  destruct (remove_mean_exact st xo (Qfloor xo) T) as [Hsum Hcomp];
    [done | done | nia | rewrite Hs, <- HT; ring | done |].
  split; [|split; [|split; [|split]]].
  - cbn [Aggregations.remove_mean Aggregations.nobs]. rewrite Hn. done.
  - rewrite Hsum, Hs. ring.
  - exact Hca.
  - exact Hcomp.
  - cbn [Aggregations.remove_mean Aggregations.neg_ct]. rewrite Hneg.
    unfold Aggregations.negatives. cbn [List.filter]. destruct (Qlt_bool xo 0); done.
Qed.

End RollMeanExact.

Lemma rows_one (vals : list cell) i c :
  vals !! i = Some c → Aggregations.rows i (S i) vals = [c].
Proof.
  intros Hc. unfold Aggregations.rows. replace (S i - i)%nat with 1%nat by lia.
  by rewrite (drop_S _ _ _ Hc).
Qed.

Lemma rows_none (vals : list cell) i : Aggregations.rows i i vals = [].
Proof. unfold Aggregations.rows. by rewrite Nat.sub_diag. Qed.

Section RollMeanLoop.

Variables (w : nat) (B : Z) (xs : list Q).
Hypothesis Hw : (0 < w)%nat.
Hypothesis HB : B * Z.of_nat w < 2 ^ 53.
Hypothesis Hxs : Forall (Float64.small_int B) xs.

Lemma window_small i : Forall (Float64.small_int B) (Aggregations.window w i xs).
Proof. unfold Aggregations.window. by apply Forall_take, Forall_drop. Qed.

Lemma length_window i : (length (Aggregations.window w i xs) ≤ w)%nat.
Proof. unfold Aggregations.window. rewrite length_take. lia. Qed.

(** The window of a position that starts afresh holds one observation. *)
Lemma window_fresh i xi :
  xs !! i = Some xi → (S i - w = i)%nat → Aggregations.window w i xs = [xi].
Proof.
  intros Hx Hs. unfold Aggregations.window. rewrite Hs.
  replace (S i - i)%nat with 1%nat by lia. by rewrite (drop_S _ _ _ Hx).
Qed.

Lemma exact_fresh i xi :
  xs !! i = Some xi → (S i - w = i)%nat →
  Aggregations.exact_at w xs i
    (foldl Aggregations.add_mean
       (Aggregations.setup (default nan ((Some <$> xs) !! (S i - w)%nat)))
       (Aggregations.rows (S i - w) (S i) (Some <$> xs))).
Proof.
  intros Hx Hs. rewrite Hs.
  assert ((Some <$> xs) !! i = Some (Some xi)) as Hc by (by rewrite list_lookup_fmap, Hx).
  rewrite (rows_one _ _ _ Hc). unfold cell. rewrite Hc. cbn [foldl default from_option id].
  exists xi. split; [done|]. split; [|split].
  - rewrite (window_fresh i xi Hx Hs).
    apply (holds_add w B Hw HB _ [] xi (holds_setup _)).
    + rewrite <- (window_fresh i xi Hx Hs). apply window_small.
    + simpl. lia.
  - done.
  - intros j x Hj Hjx. cbn [Aggregations.add_mean Aggregations.num_consecutive_same_value
                             Aggregations.prev_value Aggregations.setup Aggregations.same_value] in Hj.
    destruct (Qeq_bool xi xi) in Hj; assert (j = i) as -> by lia; congruence.
Qed.

(** The window of the next position: one observation enters, and once the
    window is full one leaves. *)
Lemma window_grow i xi :
  xs !! S i = Some xi → (S (S i) ≤ w)%nat →
  Aggregations.window w (S i) xs = Aggregations.window w i xs ++ [xi].
Proof.
  intros Hx Hi. unfold Aggregations.window.
  replace (S (S i) - w)%nat with 0%nat by lia. replace (S i - w)%nat with 0%nat by lia.
  rewrite !Nat.sub_0_r, !drop_0. by apply take_S_r.
Qed.

Lemma window_slide i xo xi :
  xs !! (S i - w)%nat = Some xo → xs !! S i = Some xi → (w ≤ S i)%nat →
  ∃ mid, Aggregations.window w i xs = xo :: mid ∧
         Aggregations.window w (S i) xs = mid ++ [xi].
Proof.
  intros Hxo Hxi Hi. unfold Aggregations.window.
  replace (S (S i) - w)%nat with (S (S i - w)) by lia.
  replace (S i - (S i - w))%nat with (S (w - 1)) by lia.
  replace (S (S i) - S (S i - w))%nat with (S (w - 1)) by lia.
  exists (take (w - 1) (drop (S (S i - w)) xs)). split.
  - by rewrite (drop_S _ _ _ Hxo).
  - apply take_S_r. rewrite lookup_drop. by replace (S (S i - w) + (w - 1))%nat with (S i) by lia.
Qed.

Lemma exact_next i st :
  (S i < length xs)%nat → ¬ (S i ≤ S (S i) - w)%nat →
  Aggregations.exact_at w xs i st →
  Aggregations.exact_at w xs (S i)
    (foldl Aggregations.add_mean
       (foldl Aggregations.remove_mean st
          (Aggregations.rows (S i - w) (S (S i) - w) (Some <$> xs)))
       (Aggregations.rows (S i) (S (S i)) (Some <$> xs))).
Proof.
  intros Hi Hw2 (xp & Hxp & Hholds & Hprev & Hrun).
  destruct (lookup_lt_is_Some_2 xs (S i) Hi) as [xi Hxi].
  assert ((Some <$> xs) !! S i = Some (Some xi)) as Hc by (by rewrite list_lookup_fmap, Hxi).
  rewrite (rows_one _ _ _ Hc). cbn [foldl].
  set (st1 := foldl Aggregations.remove_mean st _).
  assert (Aggregations.prev_value st1 = Some xp ∧
          Aggregations.num_consecutive_same_value st1
            = Aggregations.num_consecutive_same_value st ∧
          ∃ mid, Aggregations.holds st1 mid ∧
                 Aggregations.window w (S i) xs = mid ++ [xi]) as (Hprev1 & Hrun1 & mid & Hmid & Hwin).
  { unfold st1. destruct (decide (S (S i) ≤ w)%nat) as [Hgrow|Hfull].
    - replace (S (S i) - w)%nat with 0%nat by lia. replace (S i - w)%nat with 0%nat by lia.
      rewrite rows_none. cbn [foldl]. split; [done|]. split; [done|].
      exists (Aggregations.window w i xs). split; [done|]. by apply window_grow.
    - destruct (lookup_lt_is_Some_2 xs (S i - w)) as [xo Hxo]; [lia|].
      replace (S (S i) - w)%nat with (S (S i - w)) by lia.
      assert ((Some <$> xs) !! (S i - w)%nat = Some (Some xo)) as Hco
        by (by rewrite list_lookup_fmap, Hxo).
      rewrite (rows_one _ _ _ Hco). cbn [foldl].
      split; [done|]. split; [done|].
      destruct (window_slide i xo xi Hxo Hxi) as (mid & Hold & Hnew); [lia|].
      exists mid. split; [|done]. rewrite Hold in Hholds.
      apply (holds_remove w B Hw HB st xo mid Hholds).
      + rewrite <- Hold. apply window_small.
      + rewrite <- Hold. apply length_window. }
  exists xi. split; [done|]. split; [|split].
  - rewrite Hwin. apply (holds_add w B Hw HB st1 mid xi Hmid).
    + rewrite <- Hwin. apply window_small.
    + rewrite <- Hwin. apply length_window.
  - done.
  - intros j x Hj Hjx.
    cbn [Aggregations.add_mean Aggregations.num_consecutive_same_value] in Hj.
    rewrite Hprev1, Hrun1 in Hj. cbn [Aggregations.same_value] in Hj.
    destruct (decide (j = S i)) as [->|Hne]; [congruence|].
    destruct (Qeq_bool xi xp) eqn:E; [|lia].
    apply Qeq_bool_iff in E. rewrite E. apply (Hrun j x); [lia|done].
Qed.

Lemma exact_step i st :
  (i < length xs)%nat →
  match i with O => True | S i' => Aggregations.exact_at w xs i' st end →
  Aggregations.exact_at w xs i (Aggregations.roll_step w (Some <$> xs) st i).
Proof.
  intros Hi Hst. destruct (lookup_lt_is_Some_2 xs i Hi) as [xi Hxi].
  unfold Aggregations.roll_step, Aggregations.window_start, Aggregations.window_end.
  destruct i as [|i].
  - apply (exact_fresh 0 xi Hxi). lia.
  - destruct (Nat.leb_spec (S i) (S (S i) - w)) as [Hfresh|Hnext].
    + apply (exact_fresh (S i) xi Hxi). lia.
    + apply exact_next; [done|lia|done].
Qed.

Lemma exact_states i :
  (i < length xs)%nat →
  Aggregations.exact_at w xs i
    (foldl (Aggregations.roll_step w (Some <$> xs)) (Aggregations.setup nan) (seq 0 (S i))).
Proof.
  induction i as [|i IH]; intros Hi.
  - apply (exact_step 0); [done|exact I].
  - rewrite seq_S, foldl_app. cbn [foldl]. rewrite Nat.add_0_l.
    apply (exact_step (S i)); [done|]. apply IH. lia.
Qed.

End RollMeanLoop.

Lemma length_pos_Q {A} (l : list A) : l ≠ [] → (0 < inject_Z (Z.of_nat (length l)))%Q.
Proof.
  intros Hl. change 0%Q with (inject_Z 0). rewrite <- Zlt_Qlt.
  destruct l; [done|simpl; lia].
Qed.

Lemma mean_constant (win : list Q) c :
  win ≠ [] → Forall (λ x, (x == c)%Q) win → (mean win == c)%Q.
Proof.
  intros Hne Hall. pose proof (length_pos_Q win Hne) as Hpos. unfold mean.
  assert (Qsum win == c * inject_Z (Z.of_nat (length win)))%Q as ->.
  { clear Hne Hpos. induction Hall as [|x l Hx _ IH].
    - simpl. ring.
    - cbn [Qsum fold_right length]. fold (Qsum l).
      rewrite IH, Hx, Nat2Z.inj_succ, <- Z.add_1_r, inject_Z_plus. ring. }
  field. intros H. rewrite H in Hpos. by apply Qlt_irrefl in Hpos.
Qed.

Lemma mean_no_negative (win : list Q) :
  win ≠ [] → Aggregations.negatives win = 0%nat → (0 <= mean win)%Q.
Proof.
  intros Hne Hneg. pose proof (length_pos_Q win Hne) as Hpos. unfold mean.
  apply Qle_shift_div_l; [done|]. rewrite Qmult_0_l. clear Hne Hpos.
  unfold Aggregations.negatives in Hneg.
  induction win as [|x win IH]; [done|].
  cbn [List.filter] in Hneg. destruct (Qlt_bool x 0) eqn:E; [done|].
  cbn [Qsum fold_right]. fold (Qsum win). specialize (IH Hneg).
  assert (¬ (x < 0)%Q) as Hx by (rewrite <- Qlt_bool_iff; congruence).
  apply Qnot_lt_le in Hx. lra.
Qed.

Lemma mean_all_negative (win : list Q) :
  win ≠ [] → Aggregations.negatives win = length win → (mean win < 0)%Q.
Proof.
  intros Hne Hneg. pose proof (length_pos_Q win Hne) as Hpos. unfold mean.
  apply Qlt_shift_div_r; [done|]. rewrite Qmult_0_l. clear Hpos.
  unfold Aggregations.negatives in Hneg.
  assert (Forall (λ x, (x < 0)%Q) win) as Hall.
  { clear Hne. induction win as [|x win IH]; [constructor|].
    cbn [List.filter] in Hneg.
    pose proof (List.filter_length_le (λ x : Q, Qlt_bool x 0) win) as Hle.
    destruct (Qlt_bool x 0) eqn:E; simpl in Hneg; [|lia].
    constructor; [by apply Qlt_bool_iff|]. apply IH. lia. }
  destruct Hall as [|x win Hx Hall]; [done|].
  cbn [Qsum fold_right]. fold (Qsum win).
  assert (Qsum win <= 0)%Q; [|lra].
  clear Hneg Hne. induction Hall as [|y l Hy _ IH]; [simpl; lra|].
  cbn [Qsum fold_right]. fold (Qsum l). lra.
Qed.

Lemma window_trailing w i (xs : list Q) :
  (w ≤ S i)%nat → Aggregations.window w i xs = trailing w i xs.
Proof.
  intros Hi. unfold Aggregations.window, trailing. f_equal. lia.
Qed.

Lemma length_window_lt w i (xs : list Q) :
  (i < length xs)%nat → length (Aggregations.window w i xs) = Nat.min (S i) w.
Proof. intros Hi. unfold Aggregations.window. rewrite length_take, length_drop. lia. Qed.

(** What [calc_mean] returns from an exact state. *)
Lemma calc_mean_exact w xs i st :
  (0 < w)%nat → Aggregations.exact_at w xs i st →
  (S i < w → Aggregations.calc_mean w st = nan)%nat ∧
  ((w ≤ S i)%nat → Float64.representable (mean (trailing w i xs)) →
   ∃ q, Aggregations.calc_mean w st = Some q ∧ (q == mean (trailing w i xs))%Q).
Proof.
  intros Hw (xi & Hxi & (Hn & Hs & _ & _ & Hneg) & Hprev & Hrun).
  assert (i < length xs)%nat as Hi by (by eapply lookup_lt_Some).
  pose proof (length_window_lt w i xs Hi) as Hlen.
  unfold Aggregations.calc_mean. rewrite Hn, Hlen. split.
  - intros Hshort. pose proof (Nat.le_min_l (S i) w).
    destruct (Nat.leb_spec w (Nat.min (S i) w)); [lia|done].
  - intros Hfull Hrep. rewrite <- (window_trailing w i xs Hfull) in *.
    set (win := Aggregations.window w i xs) in *.
    assert (Nat.min (S i) w = w) as Hmin by (apply Nat.min_r; lia).
    rewrite Hmin in *.
    assert (win ≠ []) as Hne by (intros H; rewrite H in Hlen; simpl in Hlen; lia).
    destruct (Nat.leb_spec w w); [|lia].
    destruct (Nat.ltb_spec 0 w); [|lia]. cbn [andb].
    assert (Float64.div (Aggregations.sum_x st) (inject_Z (Z.of_nat w))
            == mean win)%Q as Hres.
    { unfold Float64.div.
      assert (Aggregations.sum_x st / inject_Z (Z.of_nat w) == mean win)%Q
        as Hq by (unfold mean; by rewrite Hs, Hlen).
      etrans; [|exact Hq]. apply round_representable.
      apply (representable_Qeq (mean win)); [by symmetry|done]. }
    destruct (Nat.leb_spec w (Aggregations.num_consecutive_same_value st))
      as [Hsame|_].
    { exists xi. split; [done|]. symmetry. apply mean_constant; [done|].
      apply list.Forall_forall. intros x Hx.
      apply list_elem_of_lookup_1 in Hx as [k Hk]. unfold win, Aggregations.window in Hk.
      apply lookup_take_Some in Hk as [Hk Hklt]. rewrite lookup_drop in Hk.
      apply (Hrun (S i - w + k)%nat x); [|done]. lia. }
    destruct (Nat.eqb_spec (Aggregations.neg_ct st) 0) as [Hz|_]; cbn [andb].
    { destruct (Qlt_bool _ 0) eqn:E.
      - exfalso. apply Qlt_bool_iff in E. rewrite Hres in E.
        pose proof (mean_no_negative win Hne) as Hm. rewrite <- Hneg in Hm.
        specialize (Hm Hz). lra.
      - destruct (Nat.eqb_spec (Aggregations.neg_ct st) w); [lia|]. cbn [andb]. eauto. }
    destruct (Nat.eqb_spec (Aggregations.neg_ct st) w) as [Hall|_];
      cbn [andb]; [|eauto].
    destruct (Qlt_bool 0 _) eqn:E; [|eauto].
    exfalso. apply Qlt_bool_iff in E. rewrite Hres in E.
    pose proof (mean_all_negative win Hne) as Hm. rewrite <- Hneg, Hlen in Hm.
    specialize (Hm Hall). lra.
Qed.

(** On integers small enough for their sums to be binary64 numbers, the
    running computation of pandas returns NaN before the window is full and
    then the mean of the window, whenever that mean is a binary64 number. *)
Lemma roll_loop_exact (w : nat) (B : Z) (xs : list Q) (i : nat) :
  (0 < w)%nat → B * Z.of_nat w < 2 ^ 53 → Forall (Float64.small_int B) xs →
  (i < length xs)%nat →
  (S i < w →
   Aggregations.roll_loop w w (Some <$> xs) (Aggregations.setup nan) (seq 0 (length xs))
     !! i = Some nan)%nat ∧
  ((w ≤ S i)%nat → Float64.representable (mean (trailing w i xs)) →
   ∃ q, Aggregations.roll_loop w w (Some <$> xs) (Aggregations.setup nan)
          (seq 0 (length xs)) !! i = Some (Some q) ∧
        (q == mean (trailing w i xs))%Q).
Proof.
  intros Hw HB Hxs Hi.
  pose proof (exact_states w B xs Hw HB Hxs i Hi) as Hst.
  destruct (calc_mean_exact w xs i _ Hw Hst) as [Hshort Hfull].
  assert (∀ c, Aggregations.calc_mean w
                 (foldl (Aggregations.roll_step w (Some <$> xs)) (Aggregations.setup nan)
                    (seq 0 (S i))) = c →
               Aggregations.roll_loop w w (Some <$> xs) (Aggregations.setup nan)
                 (seq 0 (length xs)) !! i = Some c) as Hlook.
  { intros c <-. rewrite roll_loop_lookup by (by rewrite length_seq).
    do 3 f_equal.
    replace (length xs) with (S i + (length xs - S i))%nat by lia.
    rewrite seq_app, take_app_length'; [done|by rewrite length_seq]. }
  split.
  - intros H. apply Hlook, Hshort, H.
  - intros H Hrep. destruct (Hfull H Hrep) as (q & Hcalc & Hq).
    exists q. split; [|done]. apply Hlook, Hcalc.
Qed.

(** The conversion to float64 leaves small integers as they are. *)
Lemma small_int_round (B : Z) (x : Q) :
  B < 2 ^ 53 → Float64.small_int B x →
  (Float64.round x == x)%Q ∧ Float64.small_int B (Float64.round x).
Proof.
  intros HB [Hint Hb].
  assert (Float64.round x == x)%Q as Hr.
  { etrans; [|symmetry; exact Hint]. apply round_int; [done|lia]. }
  split; [done|]. unfold Float64.small_int. by rewrite !Hr.
Qed.

Lemma mean_Qeq (l l' : list Q) : Forall2 Qeq l l' → (mean l == mean l')%Q.
Proof.
  intros H. unfold mean. rewrite <- (Forall2_length _ _ _ H).
  assert (Qsum l == Qsum l')%Q as ->; [|reflexivity].
  induction H as [|x y l l' Hxy _ IH]; [reflexivity|].
  cbn [Qsum fold_right]. fold (Qsum l) (Qsum l'). by rewrite Hxy, IH.
Qed.

Lemma trailing_fmap (f : Q → Q) w i (xs : list Q) :
  trailing w i (f <$> xs) = f <$> trailing w i xs.
Proof. unfold trailing. by rewrite fmap_take, fmap_drop. Qed.

Lemma roll_mean_exact (w : nat) (B : Z) (xs : list Q) (i : nat) :
  (0 < w)%nat → B * Z.of_nat w < 2 ^ 53 → Forall (Float64.small_int B) xs →
  (i < length xs)%nat →
  (S i < w → Aggregations.roll_mean w (Some <$> xs) !! i = Some nan)%nat ∧
  ((w ≤ S i)%nat → Float64.representable (mean (trailing w i xs)) →
   ∃ q, Aggregations.roll_mean w (Some <$> xs) !! i = Some (Some q) ∧
        (q == mean (trailing w i xs))%Q).
Proof.
  intros Hw HB Hxs Hi.
  assert (B < 2 ^ 53) as HB1.
  { destruct xs as [|x xs]; [simpl in Hi; lia|].
    apply Forall_cons in Hxs as [[_ Hx] _]. nia. }
  set (xs' := Float64.round <$> xs).
  assert (Aggregations.roll_mean w (Some <$> xs)
          = Aggregations.roll_loop w w (Some <$> xs') (Aggregations.setup nan)
              (seq 0 (length xs'))) as ->.
  { unfold Aggregations.roll_mean, Aggregations.ensure_float64, xs'.
    rewrite <- !list_fmap_compose, !length_fmap. done. }
  assert (Forall (Float64.small_int B) xs') as Hxs'.
  { unfold xs'. apply Forall_fmap. eapply Forall_impl; [exact Hxs|].
    intros x Hx. exact (proj2 (small_int_round B x HB1 Hx)). }
  assert (mean (trailing w i xs') == mean (trailing w i xs))%Q as Hmean.
  { apply mean_Qeq. unfold xs'. rewrite trailing_fmap. apply Forall2_fmap_l.
    apply Forall_Forall2_diag. unfold trailing.
    eapply Forall_impl; [apply Forall_take, Forall_drop, Hxs|].
    intros x Hx. exact (proj1 (small_int_round B x HB1 Hx)). }
  destruct (roll_loop_exact w B xs' i Hw HB Hxs') as [Hshort Hfull];
    [by unfold xs'; rewrite length_fmap|].
  split; [done|]. intros H Hrep.
  destruct Hfull as (q & Hq & Heq); [done| |].
  { apply (representable_Qeq (mean (trailing w i xs))); [by symmetry|done]. }
  exists q. split; [done|]. by rewrite Heq.
Qed.

(** The running computation in binary64 on the values of a series without
    NaN. *)
Lemma roll_mean_series (w B : Z) (d : Series) (i : nat) :
  0 < w → no_missing d →
  Forall (Float64.small_int B) (observations d) → B * w < 2 ^ 53 →
  (i < length d)%nat →
  (Z.of_nat i < w - 1 →
   Aggregations.roll_mean (Z.to_nat w) (values d) !! i = Some nan) ∧
  (w - 1 ≤ Z.of_nat i →
   Float64.representable (mean (trailing (Z.to_nat w) i (observations d))) →
   ∃ q, Aggregations.roll_mean (Z.to_nat w) (values d) !! i = Some (Some q) ∧
        (q == mean (trailing (Z.to_nat w) i (observations d)))%Q).
Proof.
  intros Hw Hd Hsmall HB Hi. rewrite (no_missing_values d Hd).
  destruct (roll_mean_exact (Z.to_nat w) B (observations d) i) as [Hnan Hmean].
  - lia.
  - by rewrite Z2Nat.id by lia.
  - done.
  - by rewrite length_observations.
  - split.
    + intros H. apply Hnan. lia.
    + intros H. apply Hmean. lia.
Qed.

(** C9: a call of [calculate_moving_average], whatever its arguments,
    leaves the analyzer (keyword, data and the stored [moving_avg_data]) as
    it was, and so does every other method; only the constructor assigns
    [moving_avg_data] (see [init_run]). *)
Theorem methods_leave_state_unchanged self :
  (∀ args kwargs, (calculate_moving_average args kwargs self).2 = self) ∧
  (∀ args kwargs, (calculate_differential args kwargs self).2 = self) ∧
  (∀ lags, (calculate_auto_correlation lags self).2 = self) ∧
  (∀ args kwargs, (find_maxima args kwargs self).2 = self) ∧
  (∀ args kwargs, (find_minima args kwargs self).2 = self) ∧
  (∀ res name, (save_to_dataframe res name self).2 = self) ∧
  (get_results self).2 = self.
Proof.
  repeat apply conj; intros.
  - apply preserves_calculate_moving_average.
  - apply preserves_calculate_differential.
  - apply preserves_calculate_auto_correlation.
  - apply preserves_find_maxima.
  - apply preserves_find_minima.
  - apply preserves_save_to_dataframe.
  - apply preserves_get_results.
Qed.

(** C6: when the series has fewer observations than a positive
    [window_size], [calculate_moving_average] returns the empty series and
    raises nothing, however the argument is passed. *)
Theorem moving_average_short_input self w :
  0 < w → len (data self) < w →
  calculate_moving_average [PyInt w] ∅ self = (Ok Pandas.empty, self) ∧
  calculate_moving_average [] {[ "window_size" := PyInt w ]} self
    = (Ok Pandas.empty, self) ∧
  (w = 7 → calculate_moving_average [] ∅ self = (Ok Pandas.empty, self)).
Proof.
  intros Hw Hlen.
  assert (calculate_moving_average_body (PyInt w) self = (Ok Pandas.empty, self)) as Hbody.
  { rewrite moving_average_body_int.
    destruct (Z.ltb_spec (len (data self)) w); [done|lia]. }
  split; [|split].
  - by rewrite moving_average_positional.
  - rewrite moving_average_by_name. by rewrite validation_passes.
  - intros ->. by rewrite moving_average_default.
Qed.

Lemma moving_average_short_input_witness :
  calculate_moving_average [PyInt 7] ∅ short_analyzer = (Ok Pandas.empty, short_analyzer) ∧
  calculate_moving_average [] {[ "window_size" := PyInt 7 ]} short_analyzer
    = (Ok Pandas.empty, short_analyzer) ∧
  (7 = 7 → calculate_moving_average [] ∅ short_analyzer = (Ok Pandas.empty, short_analyzer)).
Proof. apply (moving_average_short_input short_analyzer 7); [lia | reflexivity]. Defined.

(** C1: a [window_size] of 0 passed positionally is not validated: the
    decorator reads only the keyword arguments, sees the default 7 and lets
    the call through, which returns an all-NaN series; the same value
    passed by name raises the decorator's error.  A positional 7.5 on a
    series of three observations comes back as the empty series. *)
Theorem positional_window_size_not_validated self :
  calculate_moving_average [PyInt 0] ∅ self
    = (Ok ((λ r, (r.1, nan)) <$> data self), self) ∧
  calculate_moving_average [] {[ "window_size" := PyInt 0 ]} self
    = (Raise (InvalidArgument "window_size"), self) ∧
  calculate_moving_average [PyFloat (15 # 2)] ∅ short_analyzer
    = (Ok Pandas.empty, short_analyzer).
Proof.
  split; [|split].
  - rewrite moving_average_positional, moving_average_body_int.
    destruct (Z.ltb_spec (len (data self)) 0) as [H|_]; [unfold len in H; lia|].
    by rewrite rolling_mean_zero.
  - by rewrite moving_average_by_name.
  - by rewrite moving_average_positional.
Qed.

(** C2: [calculate_auto_correlation] carries no decorator, so no integer
    [lags] makes it raise; with [lags = 0] the analyzer of the tests returns
    an all-NaN series.  The decorator's own branch for this method would
    have rejected that value. *)
Theorem lags_not_validated self l :
  (∃ r, calculate_auto_correlation (Some l) self = (Ok r, self) ∧
        index r = index (moving_avg_data self)) ∧
  calculate_auto_correlation (Some 0) test_analyzer
    = (Ok ((λ r, (r.1, nan)) <$> moving_avg_data test_analyzer), test_analyzer) ∧
  (∀ A (func : method A),
     validate_args "calculate_auto_correlation" func [] {[ "lags" := PyInt 0 ]} self
       = (Raise (InvalidArgument "lags"), self)).
Proof.
  split; [apply auto_correlation_run|]. split; [by vm_compute|].
  intros A func. unfold validate_args. simpl.
  by rewrite lookup_singleton_eq.
Qed.



(** C7: [find_maxima] returns the rows of the stored smoothed series at
    exactly the positions [i], never the first or the last, where both
    neighbours are strictly below [smoothed[i]], and [find_minima] those
    where both are strictly above; neither position of a plateau is
    returned, and a constant series gives two empty results. *)
Theorem extrema_exactly_strict_interior self :
  let mad := moving_avg_data self in
  ∃ pmax pmin : list nat,
    find_maxima [] ∅ self = (Ok (rows_at mad pmax), self) ∧
    find_minima [] ∅ self = (Ok (rows_at mad pmin), self) ∧
    StronglySorted lt pmax ∧ StronglySorted lt pmin ∧
    (∀ i, i ∈ pmax ↔ local_max (values mad) i) ∧
    (∀ i, i ∈ pmin ↔ local_min (values mad) i) ∧
    (∀ i, i ∈ pmax ∨ i ∈ pmin → (0 < i ∧ i + 1 < length mad)%nat) ∧
    (∀ i j a b, values mad !! i = Some (Some a) → values mad !! S i = Some (Some b) →
                (a == b)%Q → j = i ∨ j = S i → (j ∉ pmax) ∧ (j ∉ pmin)) ∧
    ((∀ i j a b, values mad !! i = Some (Some a) → values mad !! j = Some (Some b) →
                 (a == b)%Q) → pmax = [] ∧ pmin = []).
Proof.
  intros mad.
  set (pmax := true_positions 0 (maxima_mask mad)).
  set (pmin := true_positions 0 (minima_mask mad)).
  assert (∀ i, i ∈ pmax ↔ local_max (values mad) i) as Hmax.
  { intros i. unfold pmax. by rewrite elem_of_positions, maxima_mask_lookup. }
  assert (∀ i, i ∈ pmin ↔ local_min (values mad) i) as Hmin.
  { intros i. unfold pmin. by rewrite elem_of_positions, minima_mask_lookup. }
  assert (∀ R i, strict_extremum R (values mad) i → (0 < i ∧ i + 1 < length mad)%nat)
    as Hinterior.
  { intros R i (a & b & c & Hpos & _ & _ & Hc & _). split; [done|].
    rewrite <- length_values. by eapply lookup_lt_Some. }
  assert (∀ i j a b, values mad !! i = Some (Some a) →
            values mad !! S i = Some (Some b) →
            (a == b)%Q → j = i ∨ j = S i → (j ∉ pmax) ∧ (j ∉ pmin)) as Hplateau.
  { intros i j a b Ha Hb Hab Hj. rewrite Hmax, Hmin. unfold local_max, local_min.
    split; intros (x & y & z & Hpos & Hx & Hy & Hz & Hxy & Hzy); destruct Hj as [-> | ->].
    - replace (i + 1)%nat with (S i) in Hz by lia.
      assert (y = a) as -> by congruence. assert (z = b) as -> by congruence.
      rewrite Hab in Hzy. by apply Qlt_irrefl in Hzy.
    - replace (S i - 1)%nat with i in Hx by lia.
      assert (x = a) as -> by congruence. assert (y = b) as -> by congruence.
      rewrite Hab in Hxy. by apply Qlt_irrefl in Hxy.
    - replace (i + 1)%nat with (S i) in Hz by lia.
      assert (y = a) as -> by congruence. assert (z = b) as -> by congruence.
      rewrite Hab in Hzy. by apply Qlt_irrefl in Hzy.
    - replace (S i - 1)%nat with i in Hx by lia.
      assert (x = a) as -> by congruence. assert (y = b) as -> by congruence.
      rewrite Hab in Hxy. by apply Qlt_irrefl in Hxy. }
  exists pmax, pmin.
  split. { rewrite find_maxima_run. do 2 f_equal. apply getitem_mask_rows.
           rewrite maxima_mask_eq. apply length_mask_of. }
  split. { rewrite find_minima_run. do 2 f_equal. apply getitem_mask_rows.
           rewrite minima_mask_eq. apply length_mask_of. }
  split; [apply true_positions_sorted|]. split; [apply true_positions_sorted|].
  split; [done|]. split; [done|].
  split. { intros i [Hi%Hmax | Hi%Hmin]; by eapply Hinterior. }
  split; [done|].
  intros Hconst. split.
  - apply elem_of_nil_inv. intros i Hi.
    apply Hmax in Hi as (x & y & z & _ & Hx & Hy & _ & Hxy & _).
    rewrite (Hconst _ _ _ _ Hx Hy) in Hxy. by apply Qlt_irrefl in Hxy.
  - apply elem_of_nil_inv. intros i Hi.
    apply Hmin in Hi as (x & y & z & _ & Hx & Hy & _ & Hxy & _).
    rewrite (Hconst _ _ _ _ Hx Hy) in Hxy. by apply Qlt_irrefl in Hxy.
Qed.

Lemma extrema_exactly_strict_interior_witness :
  ∃ pmax pmin : list nat,
    find_maxima [] ∅ wavy_analyzer
      = (Ok (rows_at (moving_avg_data wavy_analyzer) pmax), wavy_analyzer) ∧
    find_minima [] ∅ wavy_analyzer
      = (Ok (rows_at (moving_avg_data wavy_analyzer) pmin), wavy_analyzer) ∧
    (7%nat ∈ pmax) ∧ (8%nat ∈ pmin) ∧ (11%nat ∉ pmax) ∧ (12%nat ∉ pmax).
Proof.
  destruct (extrema_exactly_strict_interior wavy_analyzer)
    as (pmax & pmin & Hmax & Hmin & _ & _ & Hpmax & Hpmin & _ & Hplateau & _).
  exists pmax, pmin. split; [exact Hmax|]. split; [exact Hmin|].
  split; [|split].
  - apply Hpmax. exists (17 # 7), (25 # 7), (22 # 7).
    repeat split; [lia | reflexivity..].
  - apply Hpmin. exists (25 # 7), (22 # 7), (23 # 7).
    repeat split; [lia | reflexivity..].
  - assert ((11%nat ∉ pmax) ∧ (11%nat ∉ pmin)) as [H11 _]; [|split; [exact H11|]].
    + apply (Hplateau 11%nat 11%nat (28 # 7) (28 # 7));
        [reflexivity | reflexivity | reflexivity | by left].
    + apply (Hplateau 11%nat 12%nat (28 # 7) (28 # 7));
        [reflexivity | reflexivity | reflexivity | by right].
Defined.

(** C10: the rows returned by [find_maxima] and [find_minima] are the rows
    of the stored smoothed series at the positions their masks select; a
    selected position is never the first or the last, and its own cell and
    the cells of both neighbours are numbers, so a position whose cell or
    whose neighbour is NaN or absent is never selected and no returned row
    holds NaN; no position is selected by both masks, and over an index
    without duplicates no label is returned by both. *)
Theorem extrema_valid_and_disjoint self :
  let mad := moving_avg_data self in
  ∃ (rmax rmin : Series) (pmax pmin : list nat),
    find_maxima [] ∅ self = (Ok rmax, self) ∧
    find_minima [] ∅ self = (Ok rmin, self) ∧
    rmax = rows_at mad pmax ∧ rmin = rows_at mad pmin ∧
    (∀ i, i ∈ pmax ↔ maxima_mask mad !! i = Some true) ∧
    (∀ i, i ∈ pmin ↔ minima_mask mad !! i = Some true) ∧
    (∀ row, row ∈ rmax ∨ row ∈ rmin → row.2 ≠ nan) ∧
    (∀ i, i ∈ pmax ∨ i ∈ pmin →
          (0 < i)%nat ∧
          ∃ a b c : Q, values mad !! (i - 1)%nat = Some (Some a) ∧
                       values mad !! i = Some (Some b) ∧
                       values mad !! (i + 1)%nat = Some (Some c)) ∧
    (∀ i, i = 0%nat ∨ values mad !! (i - 1)%nat = Some nan ∨
          values mad !! i = Some nan ∨
          values mad !! (i + 1)%nat = Some nan ∨ values mad !! (i + 1)%nat = None →
          (i ∉ pmax) ∧ (i ∉ pmin)) ∧
    (∀ i, ¬ (maxima_mask mad !! i = Some true ∧ minima_mask mad !! i = Some true)) ∧
    (NoDup (index mad) → ∀ l, ¬ (l ∈ index rmax ∧ l ∈ index rmin)).
Proof.
  intros mad.
  set (pmax := true_positions 0 (maxima_mask mad)).
  set (pmin := true_positions 0 (minima_mask mad)).
  assert (∀ i, i ∈ pmax ↔ maxima_mask mad !! i = Some true) as Hpmax
    by (intros i; apply elem_of_positions).
  assert (∀ i, i ∈ pmin ↔ minima_mask mad !! i = Some true) as Hpmin
    by (intros i; apply elem_of_positions).
  assert (∀ i, i ∈ pmax ∨ i ∈ pmin →
            (0 < i)%nat ∧
            ∃ a b c : Q, values mad !! (i - 1)%nat = Some (Some a) ∧
                         values mad !! i = Some (Some b) ∧
                         values mad !! (i + 1)%nat = Some (Some c)) as Hnum.
  { intros i [Hi|Hi].
    - apply Hpmax, maxima_mask_lookup in Hi as (a & b & c & Hpos & Ha & Hb & Hc & _).
      split; [done|]. by exists a, b, c.
    - apply Hpmin, minima_mask_lookup in Hi as (a & b & c & Hpos & Ha & Hb & Hc & _).
      split; [done|]. by exists a, b, c. }
  assert (∀ i, ¬ (maxima_mask mad !! i = Some true ∧ minima_mask mad !! i = Some true))
    as Hdisj.
  { intros i [(a & b & c & _ & Ha & Hb & _ & Hab & _)%maxima_mask_lookup
               (a' & b' & c' & _ & Ha' & Hb' & _ & Hab' & _)%minima_mask_lookup].
    assert (a' = a) as -> by congruence. assert (b' = b) as -> by congruence.
    apply (Qlt_irrefl a). by etrans. }
  exists (rows_at mad pmax), (rows_at mad pmin), pmax, pmin.
  split. { rewrite find_maxima_run. do 2 f_equal. apply getitem_mask_rows.
           rewrite maxima_mask_eq. apply length_mask_of. }
  split. { rewrite find_minima_run. do 2 f_equal. apply getitem_mask_rows.
           rewrite minima_mask_eq. apply length_mask_of. }
  split; [done|]. split; [done|]. split; [done|]. split; [done|].
  split; [|split; [done|split; [|split; [done|]]]].
  - intros row Hrow.
    assert (∃ p, (p ∈ pmax ∨ p ∈ pmin) ∧ mad !! p = Some row) as (p & Hp & Hlook).
    { destruct Hrow as [Hrow|Hrow]; apply elem_of_rows_at in Hrow as (p & Hp & Hlook); eauto. }
    destruct (Hnum p Hp) as (_ & a & b & c & _ & Hb & _).
    unfold values in Hb. rewrite list_lookup_fmap, Hlook in Hb. simpl in Hb.
    injection Hb as ->. done.
  - intros i Hmiss.
    assert (¬ (i ∈ pmax ∨ i ∈ pmin)) as Hnot; [|tauto].
    intros (Hpos & a & b & c & Ha & Hb & Hc)%Hnum.
    destruct Hmiss as [->|[H|[H|[H|H]]]]; [lia|..].
    + discriminate (eq_trans (eq_sym H) Ha).
    + discriminate (eq_trans (eq_sym H) Hb).
    + discriminate (eq_trans (eq_sym H) Hc).
    + discriminate (eq_trans (eq_sym H) Hc).
  - intros Hnd l [Hlmax Hlmin].
    apply list_elem_of_fmap in Hlmax as ([l1 c1] & -> & Hr1).
    apply list_elem_of_fmap in Hlmin as ([l2 c2] & Heq & Hr2). simpl in Heq. subst l2.
    apply elem_of_rows_at in Hr1 as (p & Hp & Hlp).
    apply elem_of_rows_at in Hr2 as (q & Hq & Hlq).
    assert (p = q) as ->.
    { apply (NoDup_lookup (index mad) p q l1 Hnd); unfold index;
        rewrite list_lookup_fmap; [by rewrite Hlp | by rewrite Hlq]. }
    apply (Hdisj q). split; [by apply Hpmax | by apply Hpmin].
Qed.

Lemma extrema_valid_and_disjoint_witness :
  ∃ (rmax rmin : Series) (pmax pmin : list nat),
    find_maxima [] ∅ wavy_analyzer = (Ok rmax, wavy_analyzer) ∧
    find_minima [] ∅ wavy_analyzer = (Ok rmin, wavy_analyzer) ∧
    rmax = rows_at (moving_avg_data wavy_analyzer) pmax ∧
    rmin = rows_at (moving_avg_data wavy_analyzer) pmin ∧
    (6%nat ∉ pmin) ∧ (16%nat ∉ pmin) ∧ (7%nat ∈ pmax) ∧
    ¬ (7 ∈ index rmax ∧ 7 ∈ index rmin).
Proof.
  destruct (extrema_valid_and_disjoint wavy_analyzer)
    as (rmax & rmin & pmax & pmin & Hmax & Hmin & Hrmax & Hrmin & Hpmax & _ & _ & _
        & Hmiss & _ & Hlabels).
  exists rmax, rmin, pmax, pmin.
  split; [exact Hmax|]. split; [exact Hmin|]. split; [exact Hrmax|]. split; [exact Hrmin|].
  split; [|split; [|split]].
  - apply (Hmiss 6%nat). right. left. reflexivity.
  - apply (Hmiss 16%nat). right. right. right. right. reflexivity.
  - apply Hpmax. reflexivity.
  - apply Hlabels. vm_compute. apply NoDup_ListNoDup.
    repeat (constructor; [vm_compute; intuition congruence|]). constructor.
Defined.




Lemma padding_is_missing_count_fails :
  2 ≤ len (Pandas.dropna (moving_avg_data test_analyzer)) ∧
  ¬ padding_is_missing_count test_analyzer None.
Proof.
  split; [by vm_compute|]. intros (r & Hr & _ & Hv).
  vm_compute in Hr. injection Hr as <-.
  apply (f_equal length) in Hv. vm_compute in Hv. discriminate Hv.
Qed.

(** C3, amended: with at least two valid smoothed cells and [lags]
    defaulted or positive, [calculate_auto_correlation] returns a series
    over the full index whose last [k = min(lags, valid - 1)] cells are the
    coefficients of lags [1 .. k] (lag 0 dropped) and whose leading
    [len - k] cells are NaN; that padding is longer than the count of
    missing smoothed cells, by exactly one when [lags] is defaulted. *)
Theorem auto_correlation_alignment self lags :
  let mad := moving_avg_data self in
  let valid := Pandas.dropna mad in
  let tail := kept_coefficients mad lags in
  let nlags := match lags with None => len valid - 1 | Some l => l end in
  2 ≤ len valid →
  match lags with None => True | Some l => 0 < l end →
  ∃ r, calculate_auto_correlation lags self = (Ok r, self) ∧
       index r = index mad ∧
       values r = replicate (length mad - length tail) nan ++ tail ∧
       tail = drop 1 (Stattools.acf (observations valid) nlags) ∧
       length tail = Z.to_nat (Z.min nlags (len valid - 1)) ∧
       (count_missing mad < length mad - length tail)%nat ∧
       (lags = None → (length mad - length tail)%nat = S (count_missing mad)).
Proof.
  intros mad valid tail nlags Hv Hl.
  assert (0 < length valid)%nat as Hpos by (unfold len in Hv; lia).
  pose proof (length_kept_coefficients_lt mad lags Hpos) as Hlt. fold tail valid in Hlt.
  pose proof (count_missing_dropna mad) as Hcount. fold valid in Hcount.
  pose proof (length_dropna_le mad) as Hle. fold valid in Hle.
  assert (length tail = Z.to_nat (Z.min nlags (len valid - 1))) as Hk.
  { apply length_kept_coefficients; [done|]. destruct lags; [lia|done]. }
  eexists. split; [by apply auto_correlation_regular|].
  split; [|split; [|split; [done|split; [done|split]]]].
  - apply index_zip. rewrite length_app, length_replicate, length_index.
    fold mad. fold tail. lia.
  - apply values_zip. rewrite length_app, length_replicate, length_index.
    fold mad. fold tail. lia.
  - lia.
  - intros ->. rewrite Hk. unfold nlags, len. lia.
Qed.

Lemma auto_correlation_alignment_witness :
  ∃ r, calculate_auto_correlation None test_analyzer = (Ok r, test_analyzer) ∧
       index r = index (moving_avg_data test_analyzer) ∧
       take 7 (values r) = replicate 7 nan ∧
       length (kept_coefficients (moving_avg_data test_analyzer) None) = 3%nat.
Proof.
  destruct (auto_correlation_alignment test_analyzer None)
    as (r & Hr & Hidx & Hv & _ & Hk & _ & _).
  - by vm_compute.
  - exact I.
  - exists r. split; [exact Hr|]. split; [exact Hidx|]. split.
    + rewrite Hv. rewrite Hk. reflexivity.
    + rewrite Hk. reflexivity.
Defined.

Lemma derived_share_index_fails :
  __init__ "test_keyword" "test_timeframe" test_data = Ok test_analyzer ∧
  ¬ derived_share_index test_analyzer ∧
  ¬ derived_share_index short_analyzer.
Proof.
  split; [apply init_run|]. split.
  - intros (_ & _ & Hmax & _). specialize (Hmax [] eq_refl). discriminate Hmax.
  - intros (Hma & _). specialize (Hma 7 [] eq_refl eq_refl). discriminate Hma.
Qed.

Lemma moving_average_index self w :
  0 < w → w ≤ len (data self) →
  ∃ r, calculate_moving_average [] {[ "window_size" := PyInt w ]} self = (Ok r, self) ∧
       index r = index (data self).
Proof.
  intros Hw Hlen. eexists. split.
  - rewrite moving_average_by_name, validation_passes by done.
    rewrite moving_average_body_int.
    destruct (Z.ltb_spec (len (data self)) w); [lia|].
    by rewrite rolling_mean_ok by lia.
  - apply index_imap_fst.
Qed.

(** C4, amended: for an input of at least 7 observations with strictly
    increasing labels, the stored smoothed series, the moving average for
    any window up to the input's length, the autocorrelation series and the
    results table are indexed like the input (each table column has one
    cell per label), while the index of [find_maxima] and [find_minima] is
    a subsequence of it. *)
Theorem derived_index_domain kw tf column :
  let d := _load_data column in
  7 ≤ len d → StronglySorted Z.lt (index d) →
  ∃ self,
    __init__ kw tf column = Ok self ∧ data self = d ∧
    index (moving_avg_data self) = index d ∧
    (∀ w, 0 < w → w ≤ len d →
       ∃ r, calculate_moving_average [] {[ "window_size" := PyInt w ]} self
              = (Ok r, self) ∧ index r = index d) ∧
    (∀ lags, ∃ r, calculate_auto_correlation lags self = (Ok r, self) ∧
                  index r = index d) ∧
    (∃ r, find_maxima [] ∅ self = (Ok r, self) ∧ index r `sublist_of` index d) ∧
    (∃ r, find_minima [] ∅ self = (Ok r, self) ∧ index r `sublist_of` index d) ∧
    (∃ df, get_results self = (Ok df, self) ∧
           Frame.df_index df = index d ∧
           (Frame.df_columns df).*1 =
             ["Moving Average"; "Differential"; "Auto correlation"; "Maxima"; "Minima"] ∧
           Forall (λ c, length c.2 = length d) (Frame.df_columns df)).
Proof.
  intros d Hlen Hsorted.
  set (self := {| keyword := kw; timeframe := tf; data := d;
                  moving_avg_data := default_moving_average d |}).
  pose proof (index_default_moving_average d Hlen) as Hidx.
  exists self. split; [apply init_run|]. split; [done|]. split; [done|].
  split; [|split; [|split; [|split]]].
  - intros w Hw Hwd. by apply (moving_average_index self w).
  - intros lags. destruct (auto_correlation_run self lags) as (r & Hr & Hri).
    exists r. split; [done|]. by rewrite Hri.
  - eexists. split; [apply find_maxima_run|]. rewrite <- Hidx.
    apply fmap_sublist, getitem_mask_sublist.
  - eexists. split; [apply find_minima_run|]. rewrite <- Hidx.
    apply fmap_sublist, getitem_mask_sublist.
  - destruct (get_results_run self) as (df & Hdf & Hdi & Hnames & Hcols).
    + done.
    + simpl. by rewrite Hidx.
    + exists df. split; [done|]. split; [by rewrite Hdi|]. split; [done|].
      eapply Forall_impl; [exact Hcols|]. simpl. intros c ->.
      rewrite <- (length_index (default_moving_average d)), Hidx. apply length_index.
Qed.

Lemma derived_index_domain_witness :
  ∃ self,
    __init__ "test_keyword" "test_timeframe" test_data = Ok self ∧
    index (moving_avg_data self) = index test_data ∧
    (∃ df, get_results self = (Ok df, self) ∧
           Frame.df_index df = [0; 1; 2; 3; 4; 5; 6; 7; 8; 9]).
Proof.
  destruct (derived_index_domain "test_keyword" "test_timeframe" test_data)
    as (self & Hinit & _ & Hidx & _ & _ & _ & _ & df & Hdf & Hdi & _).
  - vm_compute. discriminate.
  - vm_compute. repeat (constructor; [|repeat constructor]). constructor.
  - exists self. split; [exact Hinit|]. split; [exact Hidx|].
    exists df. split; [exact Hdf|]. exact Hdi.
Defined.

(** * Further properties of the analyzer *)

(** ** Further properties of the decorator *)

(** X1: passed by name, [window_size] is checked exactly: the call raises
    the decorator's error when the value is not a positive [int] (a float,
    [None], a string, zero or a negative number), and otherwise runs the
    body with that value. *)
Theorem window_size_by_name_checked v self :
  (¬ positive_int v →
   calculate_moving_average [] {[ "window_size" := v ]} self
     = (Raise (InvalidArgument "window_size"), self)) ∧
  (positive_int v →
   calculate_moving_average [] {[ "window_size" := v ]} self
     = calculate_moving_average_body v self).
Proof.
  rewrite moving_average_by_name. split; intros Hv.
  - by rewrite validation_fails.
  - by rewrite validation_passes.
Qed.

Lemma window_size_by_name_checked_witness :
  calculate_moving_average [] {[ "window_size" := PyFloat (7 # 1) ]} test_analyzer
    = (Raise (InvalidArgument "window_size"), test_analyzer) ∧
  calculate_moving_average [] {[ "window_size" := PyBool true ]} short_analyzer
    = calculate_moving_average_body (PyBool true) short_analyzer.
Proof.
  split.
  - apply (proj1 (window_size_by_name_checked (PyFloat (7 # 1)) test_analyzer)).
    simpl. tauto.
  - apply (proj2 (window_size_by_name_checked (PyBool true) short_analyzer)).
    reflexivity.
Defined.

(** The decorator leaves a function of any other name as it is. *)
Lemma validate_args_other_names {A} name (func : method A) args kwargs :
  name ≠ "calculate_moving_average" → name ≠ "calculate_auto_correlation" →
  validate_args name func args kwargs = func args kwargs.
Proof.
  intros H1 H2. unfold validate_args.
  destruct (String.eqb_spec name "calculate_moving_average"); [done|].
  destruct (String.eqb_spec name "calculate_auto_correlation"); [done|]. done.
Qed.

(** ** The lags *)

(** X2: [generate_lags n] yields [1, 2, ..., n] in increasing order, each
    once: [n] values (none for [n <= 0]), the one at position [i] being
    [i + 1]. *)
Theorem generate_lags_range n :
  length (generate_lags n) = Z.to_nat n ∧
  (∀ i : nat, Z.of_nat i < n → generate_lags n !! i = Some (Z.of_nat i + 1)) ∧
  (∀ k, k ∈ generate_lags n ↔ 1 ≤ k ≤ n) ∧
  StronglySorted Z.lt (generate_lags n).
Proof.
  unfold generate_lags, Py.range1.
  assert (∀ i : nat, Z.of_nat i < n →
            ((λ i : nat, Z.of_nat i + 1) <$> seq 0 (Z.to_nat n)) !! i
            = Some (Z.of_nat i + 1)) as Hlook.
  { intros i Hi. rewrite list_lookup_fmap, lookup_seq_lt by lia. done. }
  split; [by rewrite length_fmap, length_seq|]. split; [done|]. split.
  - intros k. rewrite list_elem_of_fmap. split.
    + intros (i & -> & Hi). apply elem_of_seq in Hi. lia.
    + intros Hk. exists (Z.to_nat (k - 1)). split; [lia|].
      apply elem_of_seq. lia.
  - clear Hlook. generalize 0%nat as a.
    induction (Z.to_nat n) as [|m IH]; intros a; cbn [seq].
    + constructor.
    + rewrite fmap_cons. constructor; [apply IH|].
      apply list.Forall_forall. intros x Hx.
      apply list_elem_of_fmap in Hx as (i & -> & Hi).
      apply elem_of_seq in Hi. lia.
Qed.

Lemma generate_lags_range_witness :
  generate_lags 3 !! 2%nat = Some 3 ∧ generate_lags (-2) = [].
Proof.
  split.
  - apply (proj1 (proj2 (generate_lags_range 3)) 2%nat). lia.
  - apply nil_length_inv. rewrite (proj1 (generate_lags_range (-2))). reflexivity.
Defined.

(** ** Loading and construction *)

(** X3: [_load_data] keeps exactly the rows whose value is not NaN, in their
    order; its result has no NaN, a column without NaN comes back
    unchanged, and loading twice changes nothing more. *)
Theorem load_data_keeps_valid_rows column :
  no_missing (_load_data column) ∧
  _load_data column `sublist_of` column ∧
  (∀ row, row ∈ _load_data column ↔ row ∈ column ∧ row.2 ≠ nan) ∧
  (no_missing column → _load_data column = column) ∧
  _load_data (_load_data column) = _load_data column.
Proof.
  assert (∀ s : Series, no_missing s → _load_data s = s) as Hid.
  { unfold _load_data, Pandas.dropna.
    induction 1 as [|[l c] s [q Hq] _ IH]; simpl in *; [done|].
    subst c. simpl. by f_equal. }
  split; [apply no_missing_load_data|]. split; [|split; [|split]].
  - unfold _load_data, Pandas.dropna.
    induction column as [|r s IH]; simpl; [constructor|].
    destruct (notnull r.2); [by apply sublist_skip | by apply sublist_cons].
  - intros row. unfold _load_data, Pandas.dropna.
    rewrite list_elem_of_In, filter_In, <- list_elem_of_In.
    destruct row as [l [q|]]; simpl; split; intros [? ?]; split; done.
  - apply Hid.
  - apply Hid, no_missing_load_data.
Qed.

(** X4: an analyzer that the constructor returns has the keyword and the
    timeframe given, as data the rows of the provider's column without the
    NaN ones, and a stored [moving_avg_data] equal to what
    [calculate_moving_average()] returns on it. *)
Theorem constructor_invariant kw tf column self :
  __init__ kw tf column = Ok self →
  keyword self = kw ∧ timeframe self = tf ∧
  data self = _load_data column ∧
  no_missing (data self) ∧
  calculate_moving_average [] ∅ self = (Ok (moving_avg_data self), self).
Proof.
  rewrite init_run. intros [= <-]. simpl.
  split; [done|]. split; [done|]. split; [done|].
  split; [apply no_missing_load_data|]. apply moving_average_default_run.
Qed.

Lemma constructor_invariant_witness :
  keyword test_analyzer = "test_keyword" ∧
  data test_analyzer = _load_data test_data ∧
  calculate_moving_average [] ∅ test_analyzer
    = (Ok (moving_avg_data test_analyzer), test_analyzer).
Proof.
  destruct (constructor_invariant "test_keyword" "test_timeframe" test_data test_analyzer)
    as (Hk & _ & Hd & _ & Hma).
  - apply init_run.
  - split; [exact Hk|]. split; [exact Hd | exact Hma].
Defined.

Lemma default_moving_average_values d :
  7 ≤ len d → no_missing d →
  values (default_moving_average d) = smoothed_values d.
Proof.
  intros Hlen Hd.
  destruct (rolling_mean_spec 7 d) as (r & Hr & Hidx & Hnan & Hmean); [lia|done|done|].
  assert (default_moving_average d = r) as ->.
  { rewrite rolling_mean_ok in Hr by lia. injection Hr as <-.
    unfold default_moving_average. destruct (Z.ltb_spec (len d) 7); [lia|done]. }
  assert (length (values r) = length d) as Hl.
  { rewrite length_values, <- (length_index r), Hidx. apply length_index. }
  unfold len in Hlen. apply list_eq. intros i. unfold smoothed_values.
  destruct (decide (i < length d)%nat) as [Hi|Hi].
  - destruct (decide (i < 6)%nat) as [Hi6|Hi6].
    + rewrite Hnan by lia. rewrite lookup_app_l by (rewrite length_replicate; lia).
      symmetry. by apply lookup_replicate_2.
    + rewrite Hmean by lia. rewrite lookup_app_r by (rewrite length_replicate; lia).
      rewrite length_replicate, list_lookup_fmap, lookup_seq_lt by lia. simpl.
      change (Z.to_nat 7) with 7%nat. repeat f_equal. lia.
  - rewrite !lookup_ge_None_2; [done| |lia].
    rewrite length_app, length_replicate, length_fmap, length_seq. lia.
Qed.

Lemma smoothed_values_missing d :
  List.filter isnull (smoothed_values d) = replicate 6 nan.
Proof.
  unfold smoothed_values. rewrite List.filter_app.
  replace (List.filter isnull (_ <$> seq 6 (length d - 6))) with (@nil cell).
  - by rewrite app_nil_r.
  - generalize 6%nat at 2. induction (length d - 6)%nat as [|m IH]; intros a; [done|].
    cbn [seq]. rewrite fmap_cons. simpl. apply IH.
Qed.

Lemma stored_series_counts d :
  7 ≤ len d → no_missing d →
  count_missing (default_moving_average d) = 6%nat ∧
  (length (Pandas.dropna (default_moving_average d)) + 6 = length d)%nat.
Proof.
  intros Hlen Hd.
  assert (count_missing (default_moving_average d) = 6%nat) as Hc.
  { unfold count_missing. rewrite default_moving_average_values by done.
    by rewrite smoothed_values_missing. }
  split; [done|].
  pose proof (count_missing_dropna (default_moving_average d)) as H.
  rewrite Hc in H.
  rewrite <- (length_index (default_moving_average d)) in H.
  rewrite index_default_moving_average, length_index in H by done. lia.
Qed.

(** X5: the smoothed series the constructor stores is empty when the data
    has fewer than 7 observations; otherwise it is indexed like the data
    and its first 6 cells are NaN.  When the observations are integers
    small enough for the sum of any 7 of them to stay below [2 ^ 53], no
    other cell is NaN, and each later cell whose mean of the 7 observations
    ending there is a binary64 number holds that mean, as the running sum
    of pandas in binary64 does. *)
Theorem stored_smoothed_series kw tf column self :
  __init__ kw tf column = Ok self →
  let d := data self in
  let mad := moving_avg_data self in
  (len d < 7 → mad = []) ∧
  (7 ≤ len d →
     index mad = index d ∧
     take 6 (values mad) = replicate 6 nan ∧
     (∀ B, Forall (Float64.small_int B) (observations d) → B * 7 < 2 ^ 53 →
        count_missing mad = 6%nat ∧
        (length (Pandas.dropna mad) + 6 = length d)%nat ∧
        (∀ i, (6 ≤ i < length d)%nat →
           let m := mean (trailing 7 i (observations d)) in
           Float64.representable m →
           ∃ q q', values mad !! i = Some (Some q) ∧ (q == m)%Q ∧
                   Aggregations.roll_mean 7 (values d) !! i = Some (Some q') ∧
                   (q' == m)%Q))).
Proof.
  rewrite init_run. intros [= <-]. simpl.
  pose proof (no_missing_load_data column) as Hd.
  set (d := _load_data column) in *.
  split; [apply default_moving_average_short|]. intros Hlen.
  split; [by apply index_default_moving_average|].
  split; [by rewrite default_moving_average_values|].
  intros B Hsmall HB.
  destruct (stored_series_counts d Hlen Hd) as [Hcount Hvalid].
  split; [done|]. split; [done|].
  intros i Hi Hrep.
  destruct (roll_mean_series 7 B d i) as [_ Hmean]; [lia|done|done|done|lia|].
  destruct Hmean as (q' & Hq' & Heq); [lia|done|].
  eexists _, q'. split; [|split; [reflexivity|done]].
  rewrite default_moving_average_values by done. unfold smoothed_values.
  rewrite lookup_app_r by (rewrite length_replicate; lia).
  rewrite length_replicate, list_lookup_fmap, lookup_seq_lt by lia. simpl.
  repeat f_equal. lia.
Qed.

Lemma stored_smoothed_series_witness :
  ∃ q q', index (moving_avg_data test_analyzer) = index (data test_analyzer) ∧
          count_missing (moving_avg_data test_analyzer) = 6%nat ∧
          values (moving_avg_data test_analyzer) !! 7%nat = Some (Some q) ∧ (q == 5)%Q ∧
          Aggregations.roll_mean 7 (values (data test_analyzer)) !! 7%nat = Some (Some q') ∧
          (q' == 5)%Q ∧
          ∃ q'', Aggregations.roll_mean 7 (values (series_of_ints [1; 2; 3; 4; 5; 6; 8]))
                   !! 6%nat = Some (Some q'') ∧
                 (q'' == 4664442471205157 # 1125899906842624)%Q ∧ ¬ (q'' == 29 # 7)%Q.
Proof.
  destruct (stored_smoothed_series "test_keyword" "test_timeframe" test_data
              test_analyzer) as [_ H].
  - apply init_run.
  - destruct H as (Hidx & _ & Hexact); [vm_compute; discriminate|].
    destruct (Hexact 10) as (Hc & _ & Hmean); [|reflexivity|].
    { vm_compute. repeat constructor; vm_compute; congruence. }
    destruct (Hmean 7%nat) as (q & q' & Hq & Heq & Hq' & Heq'); [vm_compute; lia | |].
    { exists 5, 0. split; [reflexivity|]. split; [lia|reflexivity]. }
    exists q, q'. split; [exact Hidx|]. split; [exact Hc|].
    split; [exact Hq|]. split; [rewrite Heq; reflexivity|].
    split; [exact Hq'|]. split; [rewrite Heq'; reflexivity|].
    eexists. split; [by vm_compute|]. split; [reflexivity | by vm_compute].
Defined.

(** X6: when the stored smoothed series is all NaN (or empty), or has fewer
    than 2 valid cells, [calculate_auto_correlation] returns an all-NaN
    series of the same length over the same index, whatever [lags] is. *)
Theorem auto_correlation_too_few_valid self lags :
  let mad := moving_avg_data self in
  (len (Pandas.dropna mad) < 2 ∨ Pandas.isnull_all mad = true) →
  ∃ r, calculate_auto_correlation lags self = (Ok r, self) ∧
       index r = index mad ∧
       values r = replicate (length mad) nan.
Proof.
  intros mad H.
  assert (len (Pandas.dropna mad) < 2) as Hv.
  { destruct H as [?|Hall]; [done|]. by rewrite (isnull_all_dropna _ Hall). }
  eexists. split; [by apply auto_correlation_degenerate|]. split.
  - apply index_zip. by rewrite length_replicate, length_index.
  - apply values_zip. by rewrite length_replicate, length_index.
Qed.

Lemma auto_correlation_too_few_valid_witness :
  ∃ r, calculate_auto_correlation (Some 5) short_analyzer = (Ok r, short_analyzer) ∧
       values r = [].
Proof.
  destruct (auto_correlation_too_few_valid short_analyzer (Some 5)) as (r & Hr & _ & Hv).
  - left. reflexivity.
  - exists r. split; [exact Hr | exact Hv].
Defined.

(** X7: on a constructed analyzer, up to 7 observations give an all-NaN
    autocorrelation series; from 8 observations on, the default call
    returns, over the data's index, 7 NaN cells followed by [len - 7]
    coefficients. *)
Theorem auto_correlation_of_constructed kw tf column self :
  __init__ kw tf column = Ok self →
  let d := data self in
  let mad := moving_avg_data self in
  (len d ≤ 7 →
     ∀ lags, ∃ r, calculate_auto_correlation lags self = (Ok r, self) ∧
                  index r = index mad ∧ values r = replicate (length mad) nan) ∧
  (8 ≤ len d →
     ∃ r, calculate_auto_correlation None self = (Ok r, self) ∧
          index r = index d ∧
          values r = replicate 7 nan ++ kept_coefficients mad None ∧
          (length (kept_coefficients mad None) + 7 = length d)%nat).
Proof.
  rewrite init_run. intros [= <-]. simpl.
  pose proof (no_missing_load_data column) as Hd.
  set (d := _load_data column) in *.
  set (self := {| keyword := kw; timeframe := tf; data := d;
                  moving_avg_data := default_moving_average d |}).
  split.
  - intros Hlen lags. apply (auto_correlation_too_few_valid self). left. simpl.
    destruct (Z.lt_ge_cases (len d) 7) as [Hs|Hs].
    + by rewrite default_moving_average_short.
    + destruct (stored_series_counts d Hs Hd) as [_ Hc]. unfold len in *. lia.
  - intros Hlen.
    destruct (stored_series_counts d) as [Hm Hc]; [lia|done|].
    assert (index (default_moving_average d) = index d) as Hidx
      by (apply index_default_moving_average; lia).
    assert (length (default_moving_average d) = length d) as Hl
      by (by rewrite <- (length_index (default_moving_average d)), Hidx, length_index).
    assert (length (kept_coefficients (default_moving_average d) None)
            = (length d - 7)%nat) as Hk.
    { rewrite length_kept_coefficients; [|unfold len in *; lia|done].
      unfold len in *. lia. }
    assert (length (replicate 7 nan ++ kept_coefficients (default_moving_average d) None)
            = length d) as Hfull.
    { rewrite length_app, length_replicate, Hk. unfold len in Hlen. lia. }
    eexists. split.
    { apply (auto_correlation_regular self None). simpl. unfold len in *. lia. }
    simpl. rewrite Hk, Hl. unfold len in Hlen.
    replace (length d - (length d - 7))%nat with 7%nat by lia.
    split; [|split; [|lia]].
    + rewrite <- Hidx. apply index_zip. rewrite length_index, Hl. exact Hfull.
    + apply values_zip. rewrite length_index, Hl. exact Hfull.
Qed.

Lemma auto_correlation_of_constructed_witness :
  ∃ r, calculate_auto_correlation None test_analyzer = (Ok r, test_analyzer) ∧
       index r = index (data test_analyzer) ∧
       take 7 (values r) = replicate 7 nan.
Proof.
  destruct (auto_correlation_of_constructed "test_keyword" "test_timeframe" test_data
              test_analyzer) as [_ H].
  - apply init_run.
  - destruct H as (r & Hr & Hidx & Hv & _); [vm_compute; discriminate|].
    exists r. split; [exact Hr|]. split; [exact Hidx|]. rewrite Hv. reflexivity.
Defined.

(** ** Tables *)

(** X9: [save_to_dataframe] never raises; the table has the series' index
    and the one column of the given name, and that column read back over
    the table's index is the series again. *)
Theorem save_to_dataframe_round_trip res name self :
  ∃ df, save_to_dataframe res name self = (Ok df, self) ∧
        Frame.df_index df = index res ∧
        Frame.df_columns df = [(name, values res)] ∧
        Frame.column name df = Some (values res) ∧
        ∀ vals, Frame.column name df = Some vals → zip (Frame.df_index df) vals = res.
Proof.
  unfold save_to_dataframe, lift, Frame.from_dict. simpl.
  rewrite reindex_same. eexists. split; [done|]. simpl.
  split; [done|]. split; [done|].
  unfold Frame.column. simpl. rewrite String.eqb_refl. simpl.
  split; [done|]. intros vals [= <-]. apply zip_fst_snd.
Qed.

(** X10: for a constructed analyzer with fewer than 7 observations
    [get_results] returns the table with an empty index and the five
    columns, all empty. *)
Theorem get_results_short_input kw tf column self :
  __init__ kw tf column = Ok self →
  len (data self) < 7 →
  get_results self =
    (Ok {| Frame.df_index := [];
           Frame.df_columns :=
             [("Moving Average", []); ("Differential", []);
              ("Auto correlation", []); ("Maxima", []); ("Minima", [])] |}, self).
Proof.
  rewrite init_run. intros [= <-]. simpl. intros Hlen.
  unfold get_results.
  rewrite (run_bind_ok _ _ _ _ _ (moving_average_default_run _)). simpl.
  rewrite (run_bind_ok _ _ _ _ _ (differential_run _)). simpl.
  rewrite default_moving_average_short by done. reflexivity.
Qed.

Lemma get_results_short_input_witness :
  ∃ df, get_results short_analyzer = (Ok df, short_analyzer) ∧ Frame.df_index df = [].
Proof.
  eexists. split.
  - apply (get_results_short_input "test_keyword" "test_timeframe"
             (series_of_ints [1; 2; 3]) short_analyzer); [apply init_run | reflexivity].
  - reflexivity.
Defined.

(** ** The differential of a constructed analyzer *)

(** X12: on a constructed analyzer with at least 7 observations the
    differential has the data's index and its first 7 cells are NaN: the 6
    cells before the first full window, and the cell of the first full
    window, which has no number before it. *)
Theorem differential_of_constructed kw tf column self :
  __init__ kw tf column = Ok self →
  7 ≤ len (data self) →
  ∃ r, calculate_differential [] ∅ self = (Ok r, self) ∧
       index r = index (data self) ∧
       length r = length (data self) ∧
       take 7 (values r) = replicate 7 nan.
Proof.
  rewrite init_run. intros [= <-]. cbn [data moving_avg_data]. intros Hlen.
  pose proof (no_missing_load_data column) as Hd.
  set (d := _load_data column) in *.
  pose proof (default_moving_average_values d Hlen Hd) as Hvals.
  pose proof (index_default_moving_average d Hlen) as Hidx.
  set (mad := default_moving_average d) in *.
  assert (length (values mad) = length d) as Hl.
  { rewrite length_values, <- (length_index mad), Hidx. apply length_index. }
  assert (∀ i, (i < 6)%nat → values mad !! i = Some nan) as Hnan.
  { intros i Hi. rewrite Hvals. unfold smoothed_values.
    rewrite lookup_app_l by (rewrite length_replicate; lia).
    by apply lookup_replicate_2. }
  assert (length (Pandas.diff mad) = length d) as Hlr.
  { rewrite <- (length_index (Pandas.diff mad)), diff_index, Hidx. apply length_index. }
  exists (Pandas.diff mad). split; [apply differential_run|].
  split; [by rewrite diff_index|]. split; [done|].
  unfold len in Hlen. apply list_eq. intros i.
  destruct (decide (i < 7)%nat) as [Hi|Hi].
  - rewrite lookup_take_lt by done. rewrite lookup_replicate_2 by done.
    destruct i as [|i].
    + destruct (values (Pandas.diff mad) !! 0%nat) as [c|] eqn:E.
      * by rewrite (diff_first mad c E).
      * apply lookup_ge_None_1 in E. rewrite length_values in E. lia.
    + destruct (lookup_lt_is_Some_2 (values mad) (S i)) as [a Ha]; [lia|].
      rewrite (diff_later mad i a nan); [| apply Hnan; lia | done].
      f_equal. apply cell_sub_nan_r.
  - rewrite lookup_take_ge by lia. symmetry. apply lookup_replicate_None. lia.
Qed.

Lemma differential_of_constructed_witness :
  ∃ r, calculate_differential [] ∅ test_analyzer = (Ok r, test_analyzer) ∧
       index r = index (data test_analyzer) ∧
       take 7 (values r) = replicate 7 nan.
Proof.
  destruct (differential_of_constructed "test_keyword" "test_timeframe" test_data
              test_analyzer) as (r & Hr & Hidx & _ & Hnan).
  - apply init_run.
  - vm_compute. discriminate.
  - exists r. split; [exact Hr|]. split; [exact Hidx | exact Hnan].
Defined.

(** ** Neighbouring extrema *)

(** X13: no two neighbouring positions are both selected by [find_maxima],
    nor both by [find_minima]; when the stored smoothed series never
    decreases from one valid cell to the next, both return the empty
    series. *)
Theorem extrema_are_isolated self :
  let mad := moving_avg_data self in
  (∀ i, ¬ (maxima_mask mad !! i = Some true ∧ maxima_mask mad !! S i = Some true)) ∧
  (∀ i, ¬ (minima_mask mad !! i = Some true ∧ minima_mask mad !! S i = Some true)) ∧
  ((∀ i a b, values mad !! i = Some (Some a) → values mad !! S i = Some (Some b) →
             (a <= b)%Q) →
   find_maxima [] ∅ self = (Ok [], self) ∧ find_minima [] ∅ self = (Ok [], self)).
Proof.
  intros mad. split; [|split].
  - intros i [H1 H2]. apply maxima_mask_lookup in H1 as (a & b & c & _ & _ & Hb & Hc & _ & Hcb).
    apply maxima_mask_lookup in H2 as (a' & b' & c' & _ & Ha' & Hb' & _ & Hab' & _).
    replace (S i - 1)%nat with i in Ha' by lia.
    replace (i + 1)%nat with (S i) in Hc by lia.
    assert (a' = b) as -> by congruence. assert (b' = c) as -> by congruence.
    apply (Qlt_irrefl b). by etrans.
  - intros i [H1 H2]. apply minima_mask_lookup in H1 as (a & b & c & _ & _ & Hb & Hc & _ & Hcb).
    apply minima_mask_lookup in H2 as (a' & b' & c' & _ & Ha' & Hb' & _ & Hab' & _).
    replace (S i - 1)%nat with i in Ha' by lia.
    replace (i + 1)%nat with (S i) in Hc by lia.
    assert (a' = b) as -> by congruence. assert (b' = c) as -> by congruence.
    apply (Qlt_irrefl b). by etrans.
  - intros Hmono.
    assert (∀ mask, length mask = length mad → (∀ i, mask !! i ≠ Some true) →
                    Pandas.getitem_mask mad mask = []) as Hnone.
    { intros mask Hl Hf. rewrite getitem_mask_rows by done.
      replace (true_positions 0 mask) with (@nil nat); [done|].
      symmetry. apply elem_of_nil_inv. intros i Hi%elem_of_positions. by apply (Hf i). }
    rewrite find_maxima_run, find_minima_run. fold mad. split; do 2 f_equal; apply Hnone.
    + rewrite maxima_mask_eq. apply length_mask_of.
    + intros i Hi. apply maxima_mask_lookup in Hi as (a & b & c & _ & _ & Hb & Hc & _ & Hcb).
      replace (i + 1)%nat with (S i) in Hc by lia.
      pose proof (Hmono i b c Hb Hc). lra.
    + rewrite minima_mask_eq. apply length_mask_of.
    + intros i Hi. apply minima_mask_lookup in Hi as (a & b & c & Hpos & Ha & Hb & _ & Hab & _).
      destruct i as [|i]; [lia|]. replace (S i - 1)%nat with i in Ha by lia.
      pose proof (Hmono i a b Ha Hb). simpl in Hab. lra.
Qed.

Lemma extrema_are_isolated_witness :
  find_maxima [] ∅ test_analyzer = (Ok [], test_analyzer) ∧
  find_minima [] ∅ test_analyzer = (Ok [], test_analyzer).
Proof.
  apply (extrema_are_isolated test_analyzer).
  intros i a b Ha Hb.
  do 10 (destruct i as [|i]; [vm_compute in Ha, Hb; try discriminate;
                               injection Ha as <-; injection Hb as <-;
                               vm_compute; discriminate|]).
  vm_compute in Hb. destruct i; discriminate.
Defined.

(** ** The cells of the results table *)

Lemma loc_absent (s : Series) l : l ∉ index s → Frame.loc s l = nan.
Proof.
  unfold Frame.loc. induction s as [|[l' c'] s IH]; simpl; [done|].
  intros Hl. apply not_elem_of_cons in Hl as [Hne Hl].
  destruct (Z.eqb_spec l' l); [done|]. by apply IH.
Qed.

Lemma loc_lookup (s : Series) i l c :
  NoDup (index s) → s !! i = Some (l, c) → Frame.loc s l = c.
Proof.
  unfold Frame.loc. revert i. induction s as [|[l' c'] s IH]; intros i Hnd Hi; [done|].
  apply NoDup_cons in Hnd as [Hnotin Hnd]. simpl.
  destruct i as [|i]; simpl in Hi.
  - injection Hi as -> ->. by rewrite Z.eqb_refl.
  - destruct (Z.eqb_spec l' l) as [->|Hne].
    + exfalso. apply Hnotin. apply list_elem_of_fmap. exists (l, c).
      split; [done|]. by eapply list_elem_of_lookup_2.
    + by apply (IH i).
Qed.

Lemma reindex_values (s s' : Series) idx i l :
  NoDup (index s) → Frame.reindex s idx = Ok s' → idx !! i = Some l →
  values s' !! i = Some (Frame.loc s l).
Proof.
  intros Hnd Hre Hl. unfold Frame.reindex in Hre. case_bool_decide as Heq.
  - injection Hre as <-. subst idx. unfold index in Hl.
    rewrite list_lookup_fmap in Hl. unfold values. rewrite list_lookup_fmap.
    destruct (s !! i) as [[l' c]|] eqn:E; [|done]. simpl in *. injection Hl as ->.
    f_equal. symmetry. by eapply loc_lookup.
  - rewrite bool_decide_eq_true_2 in Hre by done. injection Hre as <-.
    unfold values. rewrite <- list_fmap_compose, list_lookup_fmap, Hl. done.
Qed.

(** The cell that a selection by mask leaves for a label of the series. *)
Lemma loc_getitem_mask (s : Series) mask i l c :
  NoDup (index s) → length mask = length s → s !! i = Some (l, c) →
  Frame.loc (Pandas.getitem_mask s mask) l =
    if bool_decide (mask !! i = Some true) then c else nan.
Proof.
  intros Hnd Hlen Hi.
  assert (NoDup (index (Pandas.getitem_mask s mask))) as Hnd'.
  { eapply sublist_NoDup; [exact Hnd|]. apply fmap_sublist, getitem_mask_sublist. }
  assert (∀ c', (l, c') ∈ Pandas.getitem_mask s mask → mask !! i = Some true ∧ c' = c)
    as Hin.
  { intros c'. rewrite getitem_mask_rows by done.
    intros (p & Hp & Hrow)%elem_of_rows_at. apply elem_of_positions in Hp.
    assert (p = i) as ->.
    { apply (NoDup_lookup (index s) p i l Hnd); unfold index;
        rewrite list_lookup_fmap; [by rewrite Hrow | by rewrite Hi]. }
    split; [done|]. congruence. }
  case_bool_decide as Hm.
  - assert ((l, c) ∈ Pandas.getitem_mask s mask) as Hrow.
    { rewrite getitem_mask_rows by done. apply elem_of_rows_at.
      exists i. split; [by apply elem_of_positions|done]. }
    apply list_elem_of_lookup_1 in Hrow as [j Hj]. by eapply loc_lookup.
  - apply loc_absent. intros Hl. apply list_elem_of_fmap in Hl as ([l' c'] & Heq & Hrow).
    simpl in Heq. subst l'. by destruct (Hin c' Hrow).
Qed.

Lemma get_results_columns self :
  let mad := moving_avg_data self in
  index (default_moving_average (data self)) = index mad →
  StronglySorted Z.lt (index mad) →
  ∃ ac mx mn,
    calculate_auto_correlation None self = (Ok ac, self) ∧
    Frame.reindex (Pandas.getitem_mask mad (maxima_mask mad)) (index mad) = Ok mx ∧
    Frame.reindex (Pandas.getitem_mask mad (minima_mask mad)) (index mad) = Ok mn ∧
    get_results self =
      (Ok {| Frame.df_index := index mad;
             Frame.df_columns :=
               [("Moving Average", values (default_moving_average (data self)));
                ("Differential", values (Pandas.diff mad));
                ("Auto correlation", values ac);
                ("Maxima", values mx); ("Minima", values mn)] |}, self).
Proof.
  intros mad Hma Hsorted.
  destruct (auto_correlation_run self None) as (ac & Hac & Hacidx). fold mad in Hacidx.
  pose proof (getitem_mask_sublist mad (maxima_mask mad)) as Hmax.
  pose proof (getitem_mask_sublist mad (minima_mask mad)) as Hmin.
  set (mx := Pandas.getitem_mask mad (maxima_mask mad)) in *.
  set (mn := Pandas.getitem_mask mad (minima_mask mad)) in *.
  assert (NoDup (index mad)) as Hnd by (by apply strictly_sorted_NoDup).
  destruct (reindex_ok mx (index mad)) as (mx' & Hmx' & Hmxi).
  { eapply sublist_NoDup; [exact Hnd|]. by apply fmap_sublist. }
  destruct (reindex_ok mn (index mad)) as (mn' & Hmn' & Hmni).
  { eapply sublist_NoDup; [exact Hnd|]. by apply fmap_sublist. }
  exists ac, mx', mn'. split; [done|]. split; [done|]. split; [done|].
  unfold get_results.
  rewrite (run_bind_ok _ _ _ _ _ (moving_average_default_run self)).
  rewrite (run_bind_ok _ _ _ _ _ (differential_run self)).
  rewrite (run_bind_ok _ _ _ _ _ Hac).
  rewrite (run_bind_ok _ _ _ _ _ (find_maxima_run self)).
  rewrite (run_bind_ok _ _ _ _ _ (find_minima_run self)).
  fold mad mx mn. unfold lift, Frame.from_dict.
  assert (Frame.union_indexes
            ((λ c : string * Series, index c.2) <$>
               [("Moving Average", default_moving_average (data self));
                ("Differential", Pandas.diff mad); ("Auto correlation", ac);
                ("Maxima", mx); ("Minima", mn)]) = index mad) as ->.
  { change (Frame.union_indexes
              [index (default_moving_average (data self)); index (Pandas.diff mad);
               index ac; index mx; index mn] = index mad).
    rewrite Hma, diff_index, Hacidx.
    apply union_indexes_same; [done|].
    repeat constructor; try done; by apply sublist_subseteq_index. }
  cbn [Frame.homogenize].
  rewrite (reindex_same_index _ _ Hma), (reindex_same_index _ _ (diff_index mad)),
    (reindex_same_index _ _ Hacidx), Hmx', Hmn'. done.
Qed.

(** X11: for a constructed analyzer with at least 7 observations and
    strictly increasing labels, the table of [get_results] holds the stored
    smoothed series, its first difference and the default autocorrelation
    in its first three columns; the Maxima (Minima) column holds the
    smoothed value at each local maximum (minimum) and NaN everywhere
    else. *)
Theorem results_table_columns kw tf column self :
  __init__ kw tf column = Ok self →
  7 ≤ len (data self) →
  StronglySorted Z.lt (index (data self)) →
  let mad := moving_avg_data self in
  ∃ df ac cmax cmin,
    get_results self = (Ok df, self) ∧
    calculate_auto_correlation None self = (Ok ac, self) ∧
    Frame.column "Moving Average" df = Some (values mad) ∧
    Frame.column "Differential" df = Some (values (Pandas.diff mad)) ∧
    Frame.column "Auto correlation" df = Some (values ac) ∧
    Frame.column "Maxima" df = Some cmax ∧
    Frame.column "Minima" df = Some cmin ∧
    (∀ i, (i < length mad)%nat →
       (local_max (values mad) i → cmax !! i = values mad !! i) ∧
       (¬ local_max (values mad) i → cmax !! i = Some nan) ∧
       (local_min (values mad) i → cmin !! i = values mad !! i) ∧
       (¬ local_min (values mad) i → cmin !! i = Some nan)).
Proof.
  rewrite init_run. intros [= <-]. cbn [data moving_avg_data]. intros Hlen Hsorted.
  set (d := _load_data column) in *.
  pose proof (index_default_moving_average d Hlen) as Hidx.
  set (self := {| keyword := kw; timeframe := tf; data := d;
                  moving_avg_data := default_moving_average d |}).
  set (mad := default_moving_average d) in *.
  assert (StronglySorted Z.lt (index mad)) as Hs by (by rewrite Hidx).
  assert (NoDup (index mad)) as Hnd by (by apply strictly_sorted_NoDup).
  destruct (get_results_columns self) as (ac & mx & mn & Hac & Hmx & Hmn & Hdf);
    [done|done|].
  cbn [data moving_avg_data self] in Hac, Hmx, Hmn, Hdf. fold mad in Hmx, Hmn, Hdf.
  eexists _, ac, (values mx), (values mn).
  split; [exact Hdf|]. split; [exact Hac|].
  do 5 (split; [reflexivity|]).
  intros i Hi.
  destruct (lookup_lt_is_Some_2 mad i Hi) as [[l c] Hrow].
  assert (index mad !! i = Some l) as Hl
    by (unfold index; by rewrite list_lookup_fmap, Hrow).
  assert (values mad !! i = Some c) as Hc
    by (unfold values; by rewrite list_lookup_fmap, Hrow).
  assert (∀ (mask : list bool) (m : Series),
            length mask = length mad →
            Frame.reindex (Pandas.getitem_mask mad mask) (index mad) = Ok m →
            values m !! i =
              Some (if bool_decide (mask !! i = Some true) then c else nan)) as Hcell.
  { intros mask m Hlm Hm.
    assert (NoDup (index (Pandas.getitem_mask mad mask))) as Hnd'.
    { eapply sublist_NoDup; [exact Hnd|]. apply fmap_sublist, getitem_mask_sublist. }
    rewrite (reindex_values _ _ _ i l Hnd' Hm Hl).
    f_equal. by apply loc_getitem_mask. }
  rewrite (Hcell _ _ (eq_trans (f_equal length (maxima_mask_eq mad)) (length_mask_of _ mad)) Hmx).
  rewrite (Hcell _ _ (eq_trans (f_equal length (minima_mask_eq mad)) (length_mask_of _ mad)) Hmn).
  rewrite Hc. repeat split; intros H.
  - apply maxima_mask_lookup in H. by rewrite bool_decide_eq_true_2.
  - rewrite bool_decide_eq_false_2; [done|]. by rewrite maxima_mask_lookup.
  - apply minima_mask_lookup in H. by rewrite bool_decide_eq_true_2.
  - rewrite bool_decide_eq_false_2; [done|]. by rewrite minima_mask_lookup.
Qed.

Lemma results_table_columns_witness :
  ∃ df cmax,
    get_results wavy_analyzer = (Ok df, wavy_analyzer) ∧
    Frame.column "Maxima" df = Some cmax ∧
    cmax !! 7%nat = Some (Some (25 # 7)) ∧
    cmax !! 8%nat = Some nan.
Proof.
  destruct (results_table_columns "test_keyword" "test_timeframe"
              (series_of_ints [1; 3; 2; 5; 1; 1; 4; 9; 0; 3; 3; 8; 1; 0; 7; 7; 2])
              wavy_analyzer)
    as (df & ac & cmax & cmin & Hdf & _ & _ & _ & _ & Hcmax & _ & Hcells).
  - apply init_run.
  - vm_compute. discriminate.
  - vm_compute. repeat (constructor; [|repeat constructor]). constructor.
  - exists df, cmax. split; [exact Hdf|]. split; [exact Hcmax|]. split.
    + destruct (Hcells 7%nat) as (Hmax & _); [vm_compute; lia|].
      etrans; [apply Hmax|reflexivity].
      exists (17 # 7), (25 # 7), (22 # 7). repeat split; [lia | reflexivity..].
    + destruct (Hcells 8%nat) as (_ & Hnot & _); [vm_compute; lia|].
      apply Hnot. intros (a & b & c & _ & Ha & Hb & _ & Hab & _).
      vm_compute in Ha, Hb. injection Ha as <-. injection Hb as <-.
      vm_compute in Hab. discriminate Hab.
Defined.

Lemma load_data_keeps_valid_rows_witness :
  _load_data [(0, Some 1%Q); (1, nan); (2, Some 3%Q)] = [(0, Some 1%Q); (2, Some 3%Q)] ∧
  _load_data test_data = test_data.
Proof.
  split; [reflexivity|].
  destruct (load_data_keeps_valid_rows test_data) as (_ & _ & _ & Hid & _).
  apply Hid. unfold no_missing. vm_compute. repeat constructor; eexists; reflexivity.
Defined.

(** ** A window of one *)

Lemma mean_singleton x : (mean [x] == x)%Q.
Proof. unfold mean. simpl. field. Qed.

(** X14: with [window_size = 1] passed by name, the moving average of data
    without NaN whose observations are integers below [2 ^ 53] is the data
    itself: the same index and equal values, also in the binary64
    computation of pandas. *)
Theorem moving_average_window_one self B :
  no_missing (data self) →
  Forall (Float64.small_int B) (observations (data self)) → B < 2 ^ 53 →
  ∃ r, calculate_moving_average [] {[ "window_size" := PyInt 1 ]} self = (Ok r, self) ∧
       index r = index (data self) ∧
       ∀ i x, observations (data self) !! i = Some x →
              ∃ q q', values r !! i = Some (Some q) ∧ (q == x)%Q ∧
                      Aggregations.roll_mean 1 (values (data self)) !! i = Some (Some q') ∧
                      (q' == x)%Q.
Proof.
  intros Hd Hsmall HB. set (d := data self) in *.
  destruct (decide (d = [])) as [Hnil|Hne].
  - exists []. rewrite moving_average_by_name. simpl.
    rewrite moving_average_body_int. fold d. rewrite Hnil. simpl.
    split; [done|]. split; [done|]. intros i x Hx. by destruct i.
  - assert (1 ≤ len d) as Hlen by (unfold len; destruct d; [done|simpl; lia]).
    destruct (rolling_mean_spec 1 d) as (r & Hr & Hidx & _ & Hmean); [lia|done|done|].
    exists r. split; [|split; [done|]].
    + rewrite moving_average_by_name. simpl. rewrite moving_average_body_int. fold d.
      destruct (Z.ltb_spec (len d) 1); [lia|]. by rewrite Hr.
    + intros i x Hx.
      assert (i < length d)%nat as Hi.
      { rewrite <- (length_observations d Hd). by eapply lookup_lt_Some. }
      assert (trailing 1 i (observations d) = [x]) as Hwin.
      { unfold trailing. replace (S i - 1)%nat with i by lia.
        by rewrite (drop_S _ _ _ Hx). }
      assert (Float64.small_int B x) as [Hint Hb].
      { eapply list.Forall_forall; [exact Hsmall|]. by eapply list_elem_of_lookup_2. }
      destruct (roll_mean_series 1 B d i) as [_ H64]; [lia|done|done|lia|done|].
      change (Z.to_nat 1) with 1%nat in H64. rewrite Hwin in H64.
      destruct H64 as (q' & Hq' & Heq); [lia| |].
      { apply (representable_Qeq (inject_Z (Qfloor x))).
        - rewrite mean_singleton. by symmetry.
        - apply representable_int. lia. }
      eexists _, q'. split; [apply Hmean; [done|lia]|].
      change (Z.to_nat 1) with 1%nat. rewrite Hwin.
      split; [apply mean_singleton|]. split; [done|].
      rewrite Heq. apply mean_singleton.
Qed.

Lemma moving_average_window_one_witness :
  ∃ r q q', calculate_moving_average [] {[ "window_size" := PyInt 1 ]} test_analyzer
              = (Ok r, test_analyzer) ∧
            values r !! 4%nat = Some (Some q) ∧ (q == 5)%Q ∧
            Aggregations.roll_mean 1 (values (data test_analyzer)) !! 4%nat
              = Some (Some q') ∧ (q' == 5)%Q ∧
            ∃ q'', Aggregations.roll_mean 1 [Some (inject_Z (2 ^ 53 + 1))]
                     = [Some q''] ∧ (q'' == inject_Z (2 ^ 53))%Q.
Proof.
  destruct (moving_average_window_one test_analyzer 10) as (r & Hr & _ & Hv).
  - unfold no_missing. vm_compute. repeat constructor; eexists; reflexivity.
  - vm_compute. repeat constructor; vm_compute; congruence.
  - reflexivity.
  - destruct (Hv 4%nat 5%Q) as (q & q' & Hq & Heq & Hq' & Heq'); [reflexivity|].
    exists r, q, q'. split; [exact Hr|]. split; [exact Hq|]. split; [exact Heq|].
    split; [exact Hq'|]. split; [exact Heq'|].
    eexists. split; [by vm_compute | by vm_compute].
Defined.

Lemma save_to_dataframe_round_trip_witness :
  ∃ df, save_to_dataframe test_data "Test Column" test_analyzer = (Ok df, test_analyzer) ∧
        zip (Frame.df_index df) (values test_data) = test_data.
Proof.
  destruct (save_to_dataframe_round_trip test_data "Test Column" test_analyzer)
    as (df & Hdf & _ & _ & Hcol & Hback).
  exists df. split; [exact Hdf|]. apply Hback. exact Hcol.
Defined.
